(** * Cutie Assistant: command dispatch, task store and listening glue

    A shallow embedding of [assistant.py].  The module-level globals
    ([tasks], [text_q], [audio_q], [listening_flag], [vosk_model]) and the
    fields of [CuteAssistantGUI] that the program logic reads become one
    record [App]; every function of the script becomes a computation in a
    small state-and-exception monad over [App].  Calls into the external
    collaborators (Tk, pyttsx3, pyautogui, webbrowser, the clock, the file
    system, the Kaldi recogniser) are recorded in an event log, and what
    they answer is read from an [Env] record.

    Python [str] values are modelled by Rocq strings whose characters are
    read as code points 0..255; on that range [lower] and [strip] below are
    the exact counterparts of [str.lower] and [str.strip].

    The three threads of the program (sound-device callback, recognition
    worker, Tk main loop) are interleaved at the grain of one callback, one
    button press, one poll or one worker step.  A call into Tk or pyttsx3
    returns; the screenshot and the file calls raise when [Env] says so. *)

From Stdlib Require Import String Ascii List Bool Arith ZArith Lia.
From Stdlib Require Import DecimalString DecimalPos DecimalZ.
Import ListNotations.
Local Open Scope list_scope.
Local Open Scope string_scope.

(* ================================================================== *)
(** ** Python string primitives *)
(* ================================================================== *)

Module PyStr.

(** The line feed of the source's ['\n']. *)
Definition NL : string := String (ascii_of_nat 10) EmptyString.

(** Code points below 256 that have a lowercase mapping: A-Z, and the
    Latin-1 capitals U+00C0..U+00DE without the multiplication sign. *)
Definition is_upper (c : ascii) : bool :=
  let n := nat_of_ascii c in
  (((65 <=? n) && (n <=? 90))
   || ((192 <=? n) && (n <=? 214))
   || ((216 <=? n) && (n <=? 222)))%nat.

Definition lower_char (c : ascii) : ascii :=
  if is_upper c then ascii_of_nat (nat_of_ascii c + 32) else c.

(** [str.lower()] *)
Fixpoint lower (s : string) : string :=
  match s with
  | EmptyString => EmptyString
  | String c s' => String (lower_char c) (lower s')
  end.

(** [str.isspace] on one character: TAB..CR, FS..US, SPACE, NEL, NBSP. *)
Definition is_space (c : ascii) : bool :=
  let n := nat_of_ascii c in
  (((9 <=? n) && (n <=? 13))
   || ((28 <=? n) && (n <=? 32))
   || (n =? 133) || (n =? 160))%nat.

(** [str.lstrip()] *)
Fixpoint lstrip (s : string) : string :=
  match s with
  | EmptyString => EmptyString
  | String c s' => if is_space c then lstrip s' else s
  end.

Fixpoint rev (s : string) : string :=
  match s with
  | EmptyString => EmptyString
  | String c s' => rev s' ++ String c EmptyString
  end.

(** [str.rstrip()] *)
Definition rstrip (s : string) : string := rev (lstrip (rev s)).

(** [str.strip()] *)
Definition strip (s : string) : string := rstrip (lstrip s).

(** [s.startswith(pat)] *)
Fixpoint startswith (s pat : string) : bool :=
  match pat with
  | EmptyString => true
  | String p pat' =>
      match s with
      | EmptyString => false
      | String c s' => Ascii.eqb c p && startswith s' pat'
      end
  end.

(** [pat in s] *)
Fixpoint contains (pat s : string) : bool :=
  startswith s pat
  || match s with
     | EmptyString => false
     | String _ s' => contains pat s'
     end.

(** Truthiness of a [str]: [if txt:] *)
Definition truthy (s : string) : bool :=
  match s with EmptyString => false | String _ _ => true end.

(** The decimal text of an [int] inside an f-string. *)
Definition str_of_int (z : Z) : string :=
  NilZero.string_of_int (Z.to_int z).

Definition digit (n : nat) : ascii := ascii_of_nat (48 + n).

(** A [%02d] field. *)
Definition two_digits (n : nat) : string :=
  String (digit ((n / 10) mod 10)) (String (digit (n mod 10)) EmptyString).

(** The hour of the 12-hour clock, [%I]: 1..12. *)
Definition hour12 (h : nat) : nat :=
  if (h mod 12 =? 0)%nat then 12 else h mod 12.

(** [%p] in the C/English locale. *)
Definition am_pm (h : nat) : string := if (h <? 12)%nat then "AM" else "PM".

(** [strftime('%I:%M %p')] of a time of day [h:m]. *)
Definition strftime_I_M_p (h m : nat) : string :=
  two_digits (hour12 h) ++ ":" ++ two_digits m ++ " " ++ am_pm h.

End PyStr.
Import PyStr.


(* ================================================================== *)
(** ** Program state, environment and the effect monad *)
(* ================================================================== *)

(** One audio buffer handed over by the sound device, [bytes(indata)]. *)
Definition chunk : Type := list Byte.byte.

(** What the recogniser answers to one [AcceptWaveform(data)]: [Partial]
    when it returns false, [Final text] when it returns true and
    [json.loads(recognizer.Result())] holds [text] under the key ['text']
    ([None]: the key is absent). *)
Inductive recog : Type :=
| Partial
| Final (text : option string).

(** Calls into the external collaborators, in the order they are made. *)
Inductive event : Type :=
| Transcript (text : string)        (* transcript.insert(tk.END, text) *)
| Say (text : string)               (* speak(text) *)
| ScreenshotTo (path : string)      (* pyautogui.screenshot(path) *)
| BrowserOpen (url : string)        (* webbrowser.open(url) *)
| FileOpen (name mode encoding : string)  (* open(name, mode, encoding=) *)
| ShowError (title msg : string)    (* messagebox.showerror *)
| ShowInfo (title msg : string)     (* messagebox.showinfo *)
| AskOkCancel (title msg : string)  (* messagebox.askokcancel *)
| ListenBtn (text bg : string)      (* listen_btn.config(text=, bg=) *)
| Stdout (text : string)            (* print *)
| After (ms : nat)                  (* self.after(ms, self.check_text_queue) *)
| Destroy.                          (* self.destroy() *)

(** Where the recognition thread stands inside [stt_worker]. *)
Inductive worker_pc : Type :=
| W_wait    (* at listening_flag.wait() *)
| W_get     (* at audio_q.get() *)
| W_dead.   (* left the loop through the outer except *)

Record App : Type := mkApp {
  vosk_model : bool;          (* the global is a Model (true) or None *)
  tasks : list string;        (* the Task Store *)
  awaiting_task : bool;       (* self.awaiting_task, the dispatcher state *)
  listening_flag : bool;      (* listening_flag.is_set() *)
  audio_q : list chunk;       (* oldest first *)
  text_q : list string;       (* oldest first *)
  fed : list chunk;           (* waveform the recogniser has accepted *)
  worker : worker_pc;
  tasks_txt : option string;  (* text of tasks.txt, None: no such file *)
  log : list event
}.

(** What the outside world answers during one operation. *)
Record Env : Type := mkEnv {
  now_hour : nat;                          (* datetime.datetime.now() *)
  now_minute : nat;
  time_time : Z;                           (* int(time.time()) *)
  getcwd : string;                         (* os.getcwd() *)
  path_join : string -> string -> string;  (* os.path.join *)
  screenshot_fault : option string;        (* pyautogui.screenshot raises *)
  io_fault : option (nat * string);        (* the k-th file call raises:
                                              0 is open, i is the i-th write *)
  askokcancel : bool;                      (* the user's answer *)
  kaldi : list chunk -> recog              (* answer to the last chunk of
                                              the waveform fed so far *)
}.

Definition set_vosk_model (v : bool) (a : App) : App :=
  mkApp v (tasks a) (awaiting_task a) (listening_flag a) (audio_q a)
        (text_q a) (fed a) (worker a) (tasks_txt a) (log a).
Definition set_tasks (v : list string) (a : App) : App :=
  mkApp (vosk_model a) v (awaiting_task a) (listening_flag a) (audio_q a)
        (text_q a) (fed a) (worker a) (tasks_txt a) (log a).
Definition set_awaiting_task (v : bool) (a : App) : App :=
  mkApp (vosk_model a) (tasks a) v (listening_flag a) (audio_q a)
        (text_q a) (fed a) (worker a) (tasks_txt a) (log a).
Definition set_listening_flag (v : bool) (a : App) : App :=
  mkApp (vosk_model a) (tasks a) (awaiting_task a) v (audio_q a)
        (text_q a) (fed a) (worker a) (tasks_txt a) (log a).
Definition set_audio_q (v : list chunk) (a : App) : App :=
  mkApp (vosk_model a) (tasks a) (awaiting_task a) (listening_flag a) v
        (text_q a) (fed a) (worker a) (tasks_txt a) (log a).
Definition set_text_q (v : list string) (a : App) : App :=
  mkApp (vosk_model a) (tasks a) (awaiting_task a) (listening_flag a)
        (audio_q a) v (fed a) (worker a) (tasks_txt a) (log a).
Definition set_fed (v : list chunk) (a : App) : App :=
  mkApp (vosk_model a) (tasks a) (awaiting_task a) (listening_flag a)
        (audio_q a) (text_q a) v (worker a) (tasks_txt a) (log a).
Definition set_worker (v : worker_pc) (a : App) : App :=
  mkApp (vosk_model a) (tasks a) (awaiting_task a) (listening_flag a)
        (audio_q a) (text_q a) (fed a) v (tasks_txt a) (log a).
Definition set_tasks_txt (v : option string) (a : App) : App :=
  mkApp (vosk_model a) (tasks a) (awaiting_task a) (listening_flag a)
        (audio_q a) (text_q a) (fed a) (worker a) v (log a).
Definition set_log (v : list event) (a : App) : App :=
  mkApp (vosk_model a) (tasks a) (awaiting_task a) (listening_flag a)
        (audio_q a) (text_q a) (fed a) (worker a) (tasks_txt a) v.

(** A call either returns a value or raises; the state reached so far is
    kept in both cases, as in Python. *)
Inductive outcome (A : Type) : Type :=
| Ok (a : A)
| Raised (exc : string).
Arguments Ok {A} a.
Arguments Raised {A} exc.

Definition M (A : Type) : Type := App -> outcome A * App.

Definition ret {A} (a : A) : M A := fun st => (Ok a, st).

Definition bind {A B} (c : M A) (k : A -> M B) : M B :=
  fun st =>
    match c st with
    | (Ok a, st') => k a st'
    | (Raised exc, st') => (Raised exc, st')
    end.

Definition raise {A} (exc : string) : M A := fun st => (Raised exc, st).

(** [try: c  except Exception as e: h e] *)
Definition try_except {A} (c : M A) (h : string -> M A) : M A :=
  fun st =>
    match c st with
    | (Ok a, st') => (Ok a, st')
    | (Raised exc, st') => h exc st'
    end.

(** [try: c  finally: f] *)
Definition try_finally {A} (c : M A) (f : M unit) : M A :=
  fun st =>
    match c st with
    | (r, st') =>
        match f st' with
        | (Ok _, st'') => (r, st'')
        | (Raised exc, st'') => (Raised exc, st'')
        end
    end.

Declare Scope py_scope.
Delimit Scope py_scope with py.
Notation "x <- c ;; k" := (bind c (fun x => k))
  (at level 61, c at next level, right associativity) : py_scope.
Notation "c ;; k" := (bind c (fun _ => k))
  (at level 61, right associativity) : py_scope.
Local Open Scope py_scope.

Definition gets {A} (f : App -> A) : M A := fun st => (Ok (f st), st).
Definition modify (f : App -> App) : M unit := fun st => (Ok tt, f st).
Definition emit (ev : event) : M unit :=
  modify (fun st => set_log (log st ++ [ev]) st).

(** The state a computation ends in, and what it returned. *)
Definition exec {A} (c : M A) (st : App) : App := snd (c st).
Definition result {A} (c : M A) (st : App) : outcome A := fst (c st).

(** [for x in xs: body x] *)
Fixpoint for_each {A} (xs : list A) (body : A -> M unit) : M unit :=
  match xs with
  | [] => ret tt
  | x :: xs' => body x ;; for_each xs' body
  end.

(* ================================================================== *)
(** ** The functions of assistant.py *)
(* ================================================================== *)

(** [speak]: the text is handed to a daemon thread that says it. *)
Definition speak (text : string) : M unit := emit (Say text).

(** [sd_callback]: every captured buffer is queued, listening or not. *)
Definition sd_callback (status : option string) (indata : chunk) : M unit :=
  match status with
  | Some s => emit (Stdout ("SoundDevice status: " ++ s ++ NL))
  | None => ret tt
  end ;;
  modify (fun st => set_audio_q (audio_q st ++ [indata]) st).

(** [text_q.put(txt)] *)
Definition text_q_put (txt : string) : M unit :=
  modify (fun st => set_text_q (text_q st ++ [txt]) st).

(** [text_q.get_nowait()] *)
Definition text_q_get_nowait : M string :=
  q <- gets text_q ;;
  match q with
  | [] => raise "Empty"
  | txt :: rest => modify (set_text_q rest) ;; ret txt
  end.

(** [recognizer.AcceptWaveform(data)]; [recognizer] is [None] when the
    model did not load. *)
Definition accept_waveform (e : Env) (data : chunk) : M recog :=
  loaded <- gets vosk_model ;;
  if loaded then
    modify (fun st => set_fed (fed st ++ [data]) st) ;;
    heard <- gets fed ;;
    ret (kaldi e heard)
  else raise "'NoneType' object has no attribute 'AcceptWaveform'".

(** [res.get('text', '')] *)
Definition res_get_text (text : option string) : string :=
  match text with
  | Some t => t
  | None => EmptyString
  end.

(** The body of the worker loop once a buffer has been taken from
    [audio_q]: recognise, strip, queue the text when it is not empty. *)
Definition stt_recognise (e : Env) (data : chunk) : M unit :=
  fin <- accept_waveform e data ;;
  match fin with
  | Final text =>
      let txt := strip (res_get_text text) in
      if truthy txt then text_q_put txt else ret tt
  | Partial => ret tt
  end.

(** One scheduling step of the [stt_worker] thread. *)
Definition stt_worker (e : Env) : M unit :=
  pc <- gets worker ;;
  match pc with
  | W_wait =>
      flag <- gets listening_flag ;;
      if flag then modify (set_worker W_get) else ret tt
  | W_get =>
      q <- gets audio_q ;;
      match q with
      | [] => ret tt
      | data :: rest =>
          modify (set_audio_q rest) ;;
          try_except
            (stt_recognise e data ;; modify (set_worker W_wait))
            (fun exc =>
               emit (Stdout ("STT worker error: " ++ exc ++ NL)) ;;
               modify (set_worker W_dead))
      end
  | W_dead => ret tt
  end.

(** The first component of the pair [handle_command] returns. *)
Inductive status : Type :=
| St_awaiting_task   (* 'awaiting_task' *)
| St_done            (* 'done' *)
| St_exit.           (* 'exit' *)

(** [pyautogui.screenshot(path)] *)
Definition screenshot (e : Env) (path : string) : M unit :=
  match screenshot_fault e with
  | Some exc => raise exc
  | None => emit (ScreenshotTo path)
  end.

Definition nonempty {A} (l : list A) : bool :=
  match l with [] => false | _ :: _ => true end.

(** [handle_command(cmd, gui_append_fn)] *)
Definition handle_command (e : Env) (cmd : string)
    (gui_append_fn : string -> M unit) : M status :=
  let cmd := lower cmd in
  gui_append_fn ("You: " ++ cmd ++ NL) ;;
  if contains "add task" cmd || startswith cmd "add" then
    speak "What is the task?" ;;
    gui_append_fn ("Assistant: What is the task?" ++ NL) ;;
    ret St_awaiting_task
  else if contains "list tasks" cmd || contains "show tasks" cmd then
    ts <- gets tasks ;;
    (if nonempty ts then
       for_each ts (fun t =>
         gui_append_fn ("Assistant: " ++ t ++ NL) ;;
         speak t)
     else
       gui_append_fn ("Assistant: You have no tasks." ++ NL) ;;
       speak "You have no tasks.") ;;
    ret St_done
  else if contains "screenshot" cmd || contains "take a screenshot" cmd then
    let path :=
      path_join e (getcwd e)
                ("screenshot_" ++ str_of_int (time_time e) ++ ".png") in
    screenshot e path ;;
    gui_append_fn ("Assistant: Screenshot saved to " ++ path ++ NL) ;;
    speak "Screenshot taken for you." ;;
    ret St_done
  else if contains "open chrome" cmd || contains "open browser" cmd then
    gui_append_fn ("Assistant: Opening browser." ++ NL) ;;
    speak "Opening browser" ;;
    emit (BrowserOpen "https://www.google.com") ;;
    ret St_done
  else if contains "time" cmd || contains "what's the time" cmd
          || contains "current time" cmd then
    let now := strftime_I_M_p (now_hour e) (now_minute e) in
    gui_append_fn ("Assistant: The time is " ++ now ++ NL) ;;
    speak ("The time is " ++ now) ;;
    ret St_done
  else if contains "exit" cmd || contains "quit" cmd
          || contains "goodbye" cmd then
    gui_append_fn ("Assistant: Goodbye!" ++ NL) ;;
    speak "Goodbye" ;;
    ret St_exit
  else
    gui_append_fn ("Assistant: I didn't understand that. Try again." ++ NL) ;;
    speak "I didn't understand that. Try again." ;;
    ret St_done.

(** [CuteAssistantGUI.append_transcript] *)
Definition append_transcript (text : string) : M unit :=
  emit (Transcript text).

(** [CuteAssistantGUI.stop_listen] *)
Definition stop_listen : M unit :=
  modify (set_listening_flag false) ;;
  emit (ListenBtn "Start Listening" "#FFDFE4") ;;
  append_transcript ("Assistant: Stopped listening." ++ NL).

(** [CuteAssistantGUI.toggle_listen] *)
Definition toggle_listen : M unit :=
  loaded <- gets vosk_model ;;
  if negb loaded then
    emit (ShowError "Model missing"
            "VOSK model not found. Put model folder next to script.")
  else
    flag <- gets listening_flag ;;
    if flag then stop_listen
    else
      modify (set_listening_flag true) ;;
      emit (ListenBtn "Listening..." "#DFF7E0") ;;
      append_transcript ("Assistant: Listening..." ++ NL).

(** A call on the file object of [save_tasks]: the [i]-th call raises
    when the environment says so, otherwise it is carried out. *)
Definition file_call (e : Env) (i : nat) (act : M unit) : M unit :=
  match io_fault e with
  | Some (k, exc) => if (i =? k)%nat then raise exc else act
  | None => act
  end.

(** [open('tasks.txt', 'w', encoding='utf-8')]: the file is emptied. *)
Definition open_w (e : Env) : M unit :=
  file_call e 0
    (modify (set_tasks_txt (Some EmptyString)) ;;
     emit (FileOpen "tasks.txt" "w" "utf-8")).

(** [f.write(text)] *)
Definition f_write (e : Env) (i : nat) (text : string) : M unit :=
  file_call e i
    (modify (fun st =>
       set_tasks_txt (Some (res_get_text (tasks_txt st) ++ text)) st)).

(** [for t in tasks: f.write(t + '\n')], the writes numbered from [i]. *)
Fixpoint write_lines (e : Env) (i : nat) (ts : list string) : M unit :=
  match ts with
  | [] => ret tt
  | t :: ts' => f_write e i (t ++ NL) ;; write_lines e (S i) ts'
  end.

(** [CuteAssistantGUI.save_tasks] *)
Definition save_tasks (e : Env) : M unit :=
  try_except
    (open_w e ;;
     ts <- gets tasks ;;
     write_lines e 1 ts ;;
     emit (ShowInfo "Saved" "Tasks saved to tasks.txt"))
    (fun exc => emit (ShowError "Error" exc)).

(** [CuteAssistantGUI.on_close] *)
Definition on_close (e : Env) : M unit :=
  emit (AskOkCancel "Quit" "Do you want to quit?") ;;
  if askokcancel e then
    modify (set_listening_flag false) ;;
    emit Destroy
  else ret tt.

(** The body of the loop of [check_text_queue] for one dequeued text. *)
Definition process_text (e : Env) (txt : string) : M unit :=
  awaiting <- gets awaiting_task ;;
  if awaiting then
    modify (fun st => set_tasks (tasks st ++ [txt]) st) ;;
    append_transcript ("Assistant: Added task: " ++ txt ++ NL) ;;
    speak "Task added" ;;
    modify (set_awaiting_task false)
  else
    result_state <- handle_command e txt append_transcript ;;
    match result_state with
    | St_awaiting_task => modify (set_awaiting_task true)
    | St_exit => on_close e
    | St_done => ret tt
    end.

(** [while not text_q.empty(): ...]; the loop body only removes from the
    queue, so its length on entry bounds the number of rounds. *)
Fixpoint drain (fuel : nat) (e : Env) : M unit :=
  match fuel with
  | 0 => ret tt
  | S fuel' =>
      q <- gets text_q ;;
      if nonempty q then
        txt <- text_q_get_nowait ;;
        process_text e txt ;;
        drain fuel' e
      else ret tt
  end.

(** [CuteAssistantGUI.check_text_queue] *)
Definition check_text_queue (e : Env) : M unit :=
  try_finally
    (try_except
       (fun st => drain (length (text_q st)) e st)
       (fun exc => emit (Stdout ("Queue check error: " ++ exc ++ NL))))
    (emit (After 200)).

(** The state after the module has been loaded and the window built:
    [model_ok] tells whether [Model(MODEL_PATH)] returned, [old_file] is
    what the working directory holds under tasks.txt. *)
Definition startup (model_ok : bool) (old_file : option string) : App :=
  mkApp model_ok [] false false [] [] [] W_wait old_file
        [Transcript ("Assistant: Ready. Click Start Listening to begin." ++ NL);
         After 200].

(** Everything that can happen once the window is up. *)
Inductive op : Type :=
| Click_listen                                     (* listen_btn *)
| Click_stop                                       (* stop_btn *)
| Click_save                                       (* save_btn *)
| Click_close                                      (* WM_DELETE_WINDOW *)
| Poll                                             (* the after() timer *)
| Audio (status : option string) (indata : chunk)  (* sound device *)
| Worker.                                          (* recognition thread *)

Definition run_op (e : Env) (o : op) : M unit :=
  match o with
  | Click_listen => toggle_listen
  | Click_stop => stop_listen
  | Click_save => save_tasks e
  | Click_close => on_close e
  | Poll => check_text_queue e
  | Audio status indata => sd_callback status indata
  | Worker => stt_worker e
  end.

(** A run of the program: operations, each with what the world answers. *)
Definition run (ops : list (Env * op)) (st : App) : App :=
  fold_left (fun s eo => exec (run_op (fst eo) (snd eo)) s) ops st.

(* ================================================================== *)
(** ** The dispatch table and the file layout, as the specification
       words them *)
(* ================================================================== *)

Module SpecTable.

(** A row of the table of section 4.1: the substrings and prefixes that
    select it, and what it does. *)
Record row : Type := mkRow {
  substrings : list string;
  prefixes : list string;
  effect : Env -> (string -> M unit) -> M status
}.

Definition matches (r : row) (u : string) : bool :=
  existsb (fun p => contains p u) (substrings r)
  || existsb (fun p => startswith u p) (prefixes r).

Definition add_task_effect (_ : Env) (show : string -> M unit) : M status :=
  speak "What is the task?" ;;
  show ("Assistant: What is the task?" ++ NL) ;;
  ret St_awaiting_task.

Definition list_tasks_effect (_ : Env) (show : string -> M unit) : M status :=
  ts <- gets tasks ;;
  (if nonempty ts then
     for_each ts (fun t => show ("Assistant: " ++ t ++ NL) ;; speak t)
   else
     show ("Assistant: You have no tasks." ++ NL) ;;
     speak "You have no tasks.") ;;
  ret St_done.

Definition screenshot_effect (e : Env) (show : string -> M unit) : M status :=
  let path :=
    path_join e (getcwd e)
              ("screenshot_" ++ str_of_int (time_time e) ++ ".png") in
  screenshot e path ;;
  show ("Assistant: Screenshot saved to " ++ path ++ NL) ;;
  speak "Screenshot taken for you." ;;
  ret St_done.

Definition open_browser_effect (_ : Env) (show : string -> M unit) : M status :=
  show ("Assistant: Opening browser." ++ NL) ;;
  speak "Opening browser" ;;
  emit (BrowserOpen "https://www.google.com") ;;
  ret St_done.

Definition time_effect (e : Env) (show : string -> M unit) : M status :=
  let now := strftime_I_M_p (now_hour e) (now_minute e) in
  show ("Assistant: The time is " ++ now ++ NL) ;;
  speak ("The time is " ++ now) ;;
  ret St_done.

Definition exit_effect (_ : Env) (show : string -> M unit) : M status :=
  show ("Assistant: Goodbye!" ++ NL) ;;
  speak "Goodbye" ;;
  ret St_exit.

Definition not_understood (show : string -> M unit) : M status :=
  show ("Assistant: I didn't understand that. Try again." ++ NL) ;;
  speak "I didn't understand that. Try again." ;;
  ret St_done.

Definition add_task_row : row :=
  mkRow ["add task"] ["add"] add_task_effect.
Definition list_tasks_row : row :=
  mkRow ["list tasks"; "show tasks"] [] list_tasks_effect.
Definition screenshot_row : row :=
  mkRow ["screenshot"; "take a screenshot"] [] screenshot_effect.
Definition open_browser_row : row :=
  mkRow ["open chrome"; "open browser"] [] open_browser_effect.
Definition time_row : row :=
  mkRow ["time"; "what's the time"; "current time"] [] time_effect.
Definition exit_row : row :=
  mkRow ["exit"; "quit"; "goodbye"] [] exit_effect.

(** The fixed table, in its order. *)
Definition table : list row :=
  [add_task_row; list_tasks_row; screenshot_row; open_browser_row;
   time_row; exit_row].

(** Ordered, first-match-wins dispatch of an utterance in the idle state:
    the utterance is lower-cased, shown, and the first row of [table] that
    matches it acts; when none does, the not-understood answer is given. *)
Definition dispatch (e : Env) (utterance : string)
    (show : string -> M unit) : M status :=
  let u := lower utterance in
  show ("You: " ++ u ++ NL) ;;
  match find (fun r => matches r u) table with
  | Some r => effect r e show
  | None => not_understood show
  end.

(** One task per line, each line newline-terminated. *)
Definition serialize (ts : list string) : string :=
  fold_right (fun t rest => t ++ NL ++ rest) EmptyString ts.

End SpecTable.

(** The two lines an answer of the assistant makes: shown, then said. *)
Definition answer (msg : string) : list event :=
  [Transcript ("Assistant: " ++ msg ++ NL); Say msg].

(** Every character of [s] is white space. *)
Definition all_space (s : string) : bool :=
  forallb is_space (list_ascii_of_string s).

(** [s] has no white space at either end. *)
Definition stripped (s : string) : Prop := lstrip s = s /\ rstrip s = s.

(** [pat] occurs in [s], whatever the case of the letters of [s]. *)
Definition occurs_nocase (pat s : string) : Prop :=
  exists pre mid post, s = pre ++ mid ++ post /\ lower mid = pat.

(** The line that echoes what was heard. *)
Definition echo (utterance : string) : event :=
  Transcript ("You: " ++ lower utterance ++ NL).

(** The state [st] with [evs] added to its log. *)
Definition logged (evs : list event) (st : App) : App :=
  set_log (log st ++ evs) st.

(** The state after the pending task has been filled with [txt]. *)
Definition task_filled (txt : string) (st : App) : App :=
  set_awaiting_task false
    (set_log (log st ++ [Transcript ("Assistant: Added task: " ++ txt ++ NL);
                         Say "Task added"])
       (set_tasks (tasks st ++ [txt]) st)).


(** The state after [save_tasks]: an [open] that raises leaves the file
    alone, the [k]-th write that raises leaves the [k-1] lines before it,
    and a save that gets through leaves the whole store, one line each. *)
Definition saved (e : Env) (st : App) : App :=
  let opened := FileOpen "tasks.txt" "w" "utf-8" in
  let all_written :=
    logged [opened; ShowInfo "Saved" "Tasks saved to tasks.txt"]
      (set_tasks_txt (Some (SpecTable.serialize (tasks st))) st) in
  match io_fault e with
  | None => all_written
  | Some (0, exc) => logged [ShowError "Error" exc] st
  | Some (S k, exc) =>
      if (k <? length (tasks st))%nat then
        logged [opened; ShowError "Error" exc]
          (set_tasks_txt
             (Some (SpecTable.serialize (firstn k (tasks st)))) st)
      else all_written
  end.

(** The state after [toggle_listen] has switched listening on. *)
Definition listening_started (st : App) : App :=
  logged [ListenBtn "Listening..." "#DFF7E0";
          Transcript ("Assistant: Listening..." ++ NL)]
    (set_listening_flag true st).

(** The state after [stop_listen]. *)
Definition listening_stopped (st : App) : App :=
  logged [ListenBtn "Start Listening" "#FFDFE4";
          Transcript ("Assistant: Stopped listening." ++ NL)]
    (set_listening_flag false st).

(** A text the recogniser may hand over: not empty, no white space at
    its ends. *)
Definition utterance_ok (t : string) : Prop :=
  t <> EmptyString /\ stripped t.

(** [c] keeps the relation [R] between the state it starts in and the
    state it ends in, whether it returns or raises. *)
Definition preserves (R : App -> App -> Prop) {A} (c : M A) : Prop :=
  forall st, R st (exec c st).

(** Relations any sequence of calls keeps once each call keeps them, and
    that do not look at the log. *)
Class Frame (R : App -> App -> Prop) : Prop := {
  frame_refl : forall st, R st st;
  frame_trans : forall a b c, R a b -> R b c -> R a c;
  frame_log : forall l st, R st (set_log l st)
}.

(** The Task Store is the same. *)
Definition same_tasks (st st' : App) : Prop := tasks st' = tasks st.

(** The text queue is the same. *)
Definition same_text_q (st st' : App) : Prop := text_q st' = text_q st.

(** Everything but the listening flag and the log is the same. *)
Definition same_but_listening (st st' : App) : Prop :=
  set_log (log st) (set_listening_flag (listening_flag st) st') = st.

(** How the state moves over an operation of the program: the model stays
    loaded or missing, the Task Store only grows at its end, and the text
    queue keeps holding only well-formed utterances. *)
Definition evolves (st st' : App) : Prop :=
  vosk_model st' = vosk_model st
  /\ (exists added, tasks st' = (tasks st ++ added)%list)
  /\ (Forall utterance_ok (text_q st) -> Forall utterance_ok (text_q st')).

(** The model is missing, nobody listens and the recognition thread is
    parked at [listening_flag.wait()]. *)
Definition quiet (st : App) : Prop :=
  vosk_model st = false /\ listening_flag st = false /\ worker st = W_wait.

(** A property of the state that holds after when it held before. *)
Definition keeps (I : App -> Prop) (st st' : App) : Prop := I st -> I st'.

(** [c] does not look at the recognition model: with the model swapped
    for [b] it returns the same and leaves the same state, model apart. *)
Definition model_blind {A} (c : M A) : Prop :=
  forall b st,
    c (set_vosk_model b st) = (fst (c st), set_vosk_model b (snd (c st))).

(** The operations other than the listen button and the recognition
    thread. *)
Definition needs_no_model (o : op) : bool :=
  match o with
  | Click_listen | Worker => false
  | _ => true
  end.

(** *** Sample worlds and states for the worked examples *)

Definition posix_join (a b : string) : string := a ++ "/" ++ b.

(** Five past two in the afternoon; nothing fails, nothing is heard. *)
Definition afternoon : Env :=
  mkEnv 14 5 1700000000 "/home/user" posix_join None None true
        (fun _ => Partial).

(** The same, with the second write to the file raising. *)
Definition disk_full : Env :=
  mkEnv 14 5 1700000000 "/home/user" posix_join None
        (Some (2, "[Errno 28] No space left on device")) true
        (fun _ => Partial).

(** The same, with tasks.txt not writable. *)
Definition read_only : Env :=
  mkEnv 14 5 1700000000 "/home/user" posix_join None
        (Some (0, "[Errno 13] Permission denied: 'tasks.txt'")) true
        (fun _ => Partial).

(** The recogniser finalises every buffer with the same padded text. *)
Definition hears (text : option string) : Env :=
  mkEnv 14 5 1700000000 "/home/user" posix_join None None true
        (fun _ => Final text).

(** The screenshot utility raises. *)
Definition no_display : Env :=
  mkEnv 14 5 1700000000 "/home/user" posix_join
        (Some "screen grab failed") None true (fun _ => Partial).

(** Two tasks stored, dispatcher idle, model loaded. *)
Definition two_tasks : App :=
  set_tasks ["buy milk"; "call mom"] (startup true None).

(** One task stored and a task description awaited. *)
Definition pending : App :=
  set_awaiting_task true (set_tasks ["buy milk"] (startup true None)).

(* ================================================================== *)
(** ** Stepping through the effect monad *)
(* ================================================================== *)

(** Right-nests the log of a symbolic state after a run of [emit]s. *)
Ltac norm_log := repeat rewrite <- app_assoc; cbn [app].

(** Runs a computation as far as its branches are decided. *)
Ltac run_m :=
  cbv beta iota zeta delta
      [bind ret raise gets modify emit speak append_transcript exec result
       try_except try_finally set_vosk_model set_tasks set_awaiting_task
       set_listening_flag set_audio_q set_text_q set_fed set_worker
       set_tasks_txt set_log];
  cbn [fst snd vosk_model tasks awaiting_task listening_flag audio_q text_q
       fed worker tasks_txt log];
  norm_log.

(* ================================================================== *)
(** ** Closed forms used for the further properties of the script *)
(* ================================================================== *)

(** The path [handle_command] gives a screenshot. *)
Definition screenshot_name (e : Env) : string :=
  "screenshot_" ++ str_of_int (time_time e) ++ ".png".

Definition screenshot_path (e : Env) : string :=
  path_join e (getcwd e) (screenshot_name e).

(** What [handle_command] returns for an utterance and what it adds to the
    log after the echo line, read row by row off its cascade. *)
Definition reply (e : Env) (u : string) (st : App)
    : outcome status * list event :=
  let cmd := lower u in
  if SpecTable.matches SpecTable.add_task_row cmd then
    (Ok St_awaiting_task,
     [Say "What is the task?";
      Transcript ("Assistant: What is the task?" ++ NL)])
  else if SpecTable.matches SpecTable.list_tasks_row cmd then
    (Ok St_done,
     if nonempty (tasks st) then flat_map answer (tasks st)
     else answer "You have no tasks.")
  else if SpecTable.matches SpecTable.screenshot_row cmd then
    match screenshot_fault e with
    | Some exc => (Raised exc, [])
    | None =>
        (Ok St_done,
         [ScreenshotTo (screenshot_path e);
          Transcript ("Assistant: Screenshot saved to " ++ screenshot_path e
                      ++ NL);
          Say "Screenshot taken for you."])
    end
  else if SpecTable.matches SpecTable.open_browser_row cmd then
    (Ok St_done,
     [Transcript ("Assistant: Opening browser." ++ NL);
      Say "Opening browser";
      BrowserOpen "https://www.google.com"])
  else if SpecTable.matches SpecTable.time_row cmd then
    (Ok St_done,
     answer ("The time is " ++ strftime_I_M_p (now_hour e) (now_minute e)))
  else if SpecTable.matches SpecTable.exit_row cmd then
    (Ok St_exit, [Transcript ("Assistant: Goodbye!" ++ NL); Say "Goodbye"])
  else
    (Ok St_done, answer "I didn't understand that. Try again.").

(** The utterance is answered by the screenshot row. *)
Definition selects_screenshot (u : string) : bool :=
  negb (SpecTable.matches SpecTable.add_task_row (lower u))
  && negb (SpecTable.matches SpecTable.list_tasks_row (lower u))
  && SpecTable.matches SpecTable.screenshot_row (lower u).

(** The utterance is answered by the exit row. *)
Definition selects_exit (u : string) : bool :=
  negb (existsb (fun r => SpecTable.matches r (lower u))
          [SpecTable.add_task_row; SpecTable.list_tasks_row;
           SpecTable.screenshot_row; SpecTable.open_browser_row;
           SpecTable.time_row])
  && SpecTable.matches SpecTable.exit_row (lower u).

(** What the user is asked when the window is to be closed. *)
Definition quit_dialog : event := AskOkCancel "Quit" "Do you want to quit?".

(** The state after [on_close]. *)
Definition closed (e : Env) (st : App) : App :=
  if askokcancel e then logged [quit_dialog; Destroy] (set_listening_flag false st)
  else logged [quit_dialog] st.

(** What the loop body of the poll does with one utterance. *)
Definition processed (e : Env) (u : string) (st : App) : outcome unit * App :=
  if awaiting_task st then (Ok tt, task_filled u st)
  else
    let st1 := logged (echo u :: snd (reply e u st)) st in
    match fst (reply e u st) with
    | Ok St_awaiting_task => (Ok tt, set_awaiting_task true st1)
    | Ok St_done => (Ok tt, st1)
    | Ok St_exit => (Ok tt, closed e st1)
    | Raised exc => (Raised exc, st1)
    end.

(** The Task Store and the text queue hold only well-formed utterances. *)
Definition texts_ok (st : App) : Prop :=
  Forall utterance_ok (tasks st) /\ Forall utterance_ok (text_q st).


(** Nobody listens. *)
Definition not_listening (st : App) : Prop := listening_flag st = false.

(** The dispatcher state is the same. *)
Definition same_awaiting (st st' : App) : Prop :=
  awaiting_task st' = awaiting_task st.

(** tasks.txt is the same. *)
Definition same_file (st st' : App) : Prop := tasks_txt st' = tasks_txt st.

(** The audio queue, what the recogniser has been fed and where the
    recognition thread stands are the same. *)
Definition same_audio (st st' : App) : Prop :=
  fed st' = fed st /\ audio_q st' = audio_q st /\ worker st' = worker st.

(** The buffers the sound device handed over during a run, in order. *)
Definition captured (ops : list (Env * op)) : list chunk :=
  flat_map (fun eo => match snd eo with
                      | Audio _ indata => [indata]
                      | _ => []
                      end) ops.

(** The operations of the two background threads. *)
Definition background (o : op) : bool :=
  match o with
  | Audio _ _ | Worker => true
  | _ => false
  end.



(* ================================================================== *)
(** ** Facts about the string primitives *)
(* ================================================================== *)

Section StringFacts.

Lemma append_nil_r (s : string) : s ++ EmptyString = s.
Proof. induction s as [|c s IH]; simpl; [reflexivity | now rewrite IH]. Qed.

Lemma append_assoc (a b c : string) : (a ++ b) ++ c = a ++ b ++ c.
Proof. induction a as [|x a IH]; simpl; [reflexivity | now rewrite IH]. Qed.

Lemma lower_app (a b : string) : lower (a ++ b) = lower a ++ lower b.
Proof. induction a as [|x a IH]; simpl; [reflexivity | now rewrite IH]. Qed.

(** A lower-cased string splits exactly where the original does. *)
Lemma lower_split (s x y : string) :
  lower s = x ++ y -> exists a b, s = a ++ b /\ lower a = x /\ lower b = y.
Proof.
  revert s; induction x as [|c x IH]; intros s H.
  - exists EmptyString, s. auto.
  - destruct s as [|d s]; simpl in H; [discriminate|].
    injection H as Hc Hs. destruct (IH _ Hs) as (a & b & -> & Ha & Hb).
    exists (String d a), b. simpl. now rewrite Hc, Ha.
Qed.

Lemma startswith_spec (s pat : string) :
  startswith s pat = true <-> exists post, s = pat ++ post.
Proof.
  revert pat; induction s as [|c s IH]; intros [|p pat]; simpl.
  - split; [exists EmptyString; reflexivity | reflexivity].
  - split; [discriminate | intros [post H]; discriminate].
  - split; [exists (String c s); reflexivity | reflexivity].
  - rewrite andb_true_iff, Ascii.eqb_eq, IH. split.
    + intros [-> [post ->]]. now exists post.
    + intros [post H]. injection H as -> ->. split; [reflexivity | now exists post].
Qed.

Lemma contains_spec (pat s : string) :
  contains pat s = true <-> exists pre post, s = pre ++ pat ++ post.
Proof.
  induction s as [|c s IH].
  - cbn [contains]. rewrite orb_false_r, startswith_spec. split.
    + intros [post H]. now exists EmptyString, post.
    + intros ([|x pre] & post & H); [now exists post | discriminate].
  - cbn [contains]. rewrite orb_true_iff, startswith_spec, IH. split.
    + intros [[post H] | (pre & post & ->)].
      * now exists EmptyString, post.
      * now exists (String c pre), post.
    + intros ([|x pre] & post & H).
      * left. now exists post.
      * right. injection H as -> ->. now exists pre, post.
Qed.

(** Matching a pattern against the lower-cased utterance is matching
    it against the utterance without regard to case. *)
Lemma contains_lower (pat s : string) :
  contains pat (lower s) = true <-> occurs_nocase pat s.
Proof.
  rewrite contains_spec. split.
  - intros (pre & post & H).
    destruct (lower_split _ _ _ H) as (a & b & -> & _ & Hb).
    destruct (lower_split _ _ _ Hb) as (m & c & -> & Hm & _).
    now exists a, m, c.
  - intros (pre & mid & post & -> & <-).
    exists (lower pre), (lower post). now rewrite !lower_app.
Qed.

Lemma rev_app (a b : string) : rev (a ++ b) = rev b ++ rev a.
Proof.
  induction a as [|x a IH]; simpl.
  - now rewrite append_nil_r.
  - now rewrite IH, append_assoc.
Qed.

Lemma rev_involutive (s : string) : rev (rev s) = s.
Proof.
  induction s as [|c s IH]; simpl; [reflexivity|].
  now rewrite rev_app, IH.
Qed.

Lemma lstrip_idem (s : string) : lstrip (lstrip s) = lstrip s.
Proof.
  induction s as [|c s IH]; simpl; [reflexivity|].
  destruct (is_space c) eqn:E; [exact IH | simpl; now rewrite E].
Qed.

Lemma lstrip_snoc (s : string) (c : ascii) :
  is_space c = false ->
  lstrip (s ++ String c EmptyString) = lstrip s ++ String c EmptyString.
Proof.
  intros Hc. induction s as [|x s IH]; simpl.
  - now rewrite Hc.
  - destruct (is_space x); [exact IH | reflexivity].
Qed.

Lemma rstrip_idem (s : string) : rstrip (rstrip s) = rstrip s.
Proof. unfold rstrip. now rewrite rev_involutive, lstrip_idem. Qed.

Lemma lstrip_rstrip (s : string) : lstrip s = s -> lstrip (rstrip s) = rstrip s.
Proof.
  destruct s as [|c s]; [reflexivity|]. simpl.
  destruct (is_space c) eqn:E.
  - intros H. exfalso.
    assert (L : forall t, String.length (lstrip t) <= String.length t).
    { induction t as [|y t IHt]; simpl; [lia|].
      destruct (is_space y); simpl; lia. }
    specialize (L s). rewrite H in L. simpl in L. lia.
  - intros _. unfold rstrip. simpl.
    rewrite lstrip_snoc by exact E. rewrite rev_app. simpl. now rewrite E.
Qed.

(** What [strip] returns has no white space left at either end. *)
Lemma strip_stripped (s : string) : stripped (strip s).
Proof.
  unfold stripped, strip. split.
  - apply lstrip_rstrip, lstrip_idem.
  - apply rstrip_idem.
Qed.

Lemma all_space_app (a b : string) :
  all_space (a ++ b) = all_space a && all_space b.
Proof.
  unfold all_space. induction a as [|x a IH]; simpl; [reflexivity|].
  now rewrite IH, andb_assoc.
Qed.

Lemma all_space_rev (s : string) : all_space (rev s) = all_space s.
Proof.
  induction s as [|c s IH]; [reflexivity|].
  simpl rev. rewrite all_space_app, IH. unfold all_space. simpl.
  rewrite andb_true_r. apply andb_comm.
Qed.

Lemma lstrip_split (s : string) :
  exists ws, s = ws ++ lstrip s /\ all_space ws = true.
Proof.
  induction s as [|c s (ws & H & Hws)]; simpl.
  - now exists EmptyString.
  - destruct (is_space c) eqn:E.
    + exists (String c ws). simpl. split; [now rewrite <- H|].
      unfold all_space in *. simpl. now rewrite E.
    + now exists EmptyString.
Qed.

(** [strip] removes white space from the two ends and nothing else. *)
Lemma strip_split (s : string) :
  exists ws1 ws2,
    s = ws1 ++ strip s ++ ws2 /\ all_space ws1 = true /\ all_space ws2 = true.
Proof.
  destruct (lstrip_split s) as (ws1 & H1 & Hw1).
  destruct (lstrip_split (rev (lstrip s))) as (ws2 & H2 & Hw2).
  exists ws1, (rev ws2). repeat split; [|exact Hw1|now rewrite all_space_rev].
  unfold strip, rstrip. rewrite <- rev_app, <- H2, rev_involutive. exact H1.
Qed.

Lemma lstrip_all_space (s : string) :
  all_space s = true -> lstrip s = EmptyString.
Proof.
  unfold all_space. induction s as [|c s IH]; simpl; [reflexivity|].
  intros H. apply andb_true_iff in H. destruct H as [Hc Hs].
  rewrite Hc. now apply IH.
Qed.

(** [strip] returns the empty string exactly on white space. *)
Lemma strip_empty_iff (s : string) :
  strip s = EmptyString <-> all_space s = true.
Proof.
  split.
  - intros H. destruct (strip_split s) as (ws1 & ws2 & Hs & H1 & H2).
    rewrite Hs, H, !all_space_app, H1, H2. reflexivity.
  - intros H. unfold strip. now rewrite lstrip_all_space.
Qed.

Lemma truthy_true (s : string) : truthy s = true <-> s <> EmptyString.
Proof. destruct s; simpl; split; congruence. Qed.

Lemma hour12_range (h : nat) : 1 <= hour12 h <= 12.
Proof.
  unfold hour12. pose proof (Nat.mod_upper_bound h 12 ltac:(lia)).
  destruct (h mod 12 =? 0)%nat eqn:E; [lia|].
  apply Nat.eqb_neq in E. lia.
Qed.

Lemma hour12_mod (h : nat) : hour12 h mod 12 = h mod 12.
Proof.
  unfold hour12. destruct (h mod 12 =? 0)%nat eqn:E.
  - apply Nat.eqb_eq in E. now rewrite E.
  - apply Nat.Div0.mod_mod.
Qed.

End StringFacts.

Lemma app_state_eta (st : App) :
  mkApp (vosk_model st) (tasks st) (awaiting_task st) (listening_flag st)
        (audio_q st) (text_q st) (fed st) (worker st) (tasks_txt st) (log st)
  = st.
Proof. now destruct st. Qed.


Lemma logged_nil (st : App) : logged [] st = st.
Proof. unfold logged, set_log. rewrite app_nil_r. apply app_state_eta. Qed.

Lemma logged_logged (a b : list event) (st : App) :
  logged b (logged a st) = logged (a ++ b) st.
Proof. unfold logged, set_log. cbn. now rewrite app_assoc. Qed.

Lemma for_each_answer (ts : list string) (st : App) :
  for_each ts
    (fun t => append_transcript ("Assistant: " ++ t ++ NL) ;; speak t) st
  = (Ok tt, logged (flat_map answer ts) st).
Proof.
  revert st; induction ts as [|t ts IH]; intros st.
  - cbn. now rewrite logged_nil.
  - cbn [for_each flat_map]. unfold bind at 1.
    replace ((append_transcript ("Assistant: " ++ t ++ NL) ;; speak t) st)
      with (Ok tt, logged (answer t) st)
      by (unfold logged, answer; run_m; reflexivity).
    rewrite IH, logged_logged. reflexivity.
Qed.

(* ================================================================== *)
(** ** Dispatch in the idle state *)
(* ================================================================== *)

(** The cascade of [if]s of [handle_command] is the first-match search
    of the table. *)
Lemma handle_command_table (e : Env) (u : string) (show : string -> M unit) :
  handle_command e u show = SpecTable.dispatch e u show.
Proof.
  unfold handle_command, SpecTable.dispatch, SpecTable.table, SpecTable.matches.
  cbn [find existsb SpecTable.substrings SpecTable.prefixes
       SpecTable.add_task_row SpecTable.list_tasks_row SpecTable.screenshot_row
       SpecTable.open_browser_row SpecTable.time_row SpecTable.exit_row].
  rewrite !orb_false_r.
  repeat match goal with
         | |- context [contains ?p (lower u)] =>
             destruct (contains p (lower u)); cbn [orb]; try reflexivity
         | |- context [startswith (lower u) ?p] =>
             destruct (startswith (lower u) p); cbn [orb]; try reflexivity
         end.
Qed.
(* ================================================================== *)
(** ** Filling the pending task *)
(* ================================================================== *)

(** C1. An utterance taken from the text queue while a task description is
    awaited becomes, unchanged, the last task of the store; "Task added" is
    said, the dispatcher is idle again, and nothing else happens, whatever
    the utterance is: it is neither lower-cased nor echoed nor matched
    against the command table, so it is the same step for "exit" or
    "time" as for any other text.  A poll that finds this one utterance
    queued does exactly that and re-arms its timer. *)
Theorem awaiting_utterance_becomes_task (e : Env) (txt : string) (st : App) :
  awaiting_task st = true ->
  process_text e txt st = (Ok tt, task_filled txt st)
  /\ tasks (task_filled txt st) = (tasks st ++ [txt])%list
  /\ awaiting_task (task_filled txt st) = false
  /\ (text_q st = [txt] ->
      check_text_queue e st
      = (Ok tt, logged [After 200] (set_text_q [] (task_filled txt st)))).
Proof.
  intros Haw. repeat split.
  - unfold process_text, task_filled. run_m. rewrite Haw. run_m. reflexivity.
  - intros Hq. unfold check_text_queue, task_filled, logged.
    run_m. rewrite Hq. cbn [length drain].
    unfold text_q_get_nowait, process_text.
    repeat (progress (run_m; cbn [nonempty]; rewrite ?Hq, ?Haw)).
    reflexivity.
Qed.

(** "exit" said while a task is awaited is stored as the task "exit":
    nobody is asked whether to quit. *)
Lemma awaiting_utterance_becomes_task_witness :
  awaiting_task pending = true
  /\ process_text afternoon "exit" pending
     = (Ok tt, task_filled "exit" pending)
  /\ tasks (task_filled "exit" pending) = ["buy milk"; "exit"]
  /\ awaiting_task (task_filled "exit" pending) = false
  /\ log (task_filled "exit" pending)
     = (log pending ++ [Transcript ("Assistant: Added task: exit" ++ NL);
                        Say "Task added"])%list.
Proof.
  assert (Haw : awaiting_task pending = true) by reflexivity.
  destruct (awaiting_utterance_becomes_task afternoon "exit" pending Haw)
    as (Hrun & Htasks & Hidle & _).
  split; [exact Haw|]. split; [exact Hrun|].
  split; [rewrite Htasks; reflexivity|].
  split; [exact Hidle | reflexivity].
Defined.

(** [find] returns the first element that passes the test. *)
Lemma find_first {A} (f : A -> bool) (before : list A) (x : A)
    (after : list A) :
  (forall y, In y before -> f y = false) -> f x = true ->
  find f (before ++ x :: after) = Some x.
Proof.
  intros Hbefore Hx. induction before as [|y before IH]; cbn.
  - now rewrite Hx.
  - rewrite (Hbefore y) by now left.
    apply IH. intros z Hz. apply Hbefore. now right.
Qed.

Lemma find_nobody {A} (f : A -> bool) (l : list A) :
  (forall y, In y l -> f y = false) -> find f l = None.
Proof.
  intros Hl. induction l as [|y l IH]; cbn; [reflexivity|].
  rewrite (Hl y) by now left. apply IH. intros z Hz. apply Hl. now right.
Qed.

(** A row is selected by the lower-cased utterance exactly when one of its
    substrings occurs in the utterance in some casing, or the utterance
    begins with one of its prefixes in some casing. *)
Lemma matches_nocase (r : SpecTable.row) (u : string) :
  SpecTable.matches r (lower u) = true <->
  (exists p, In p (SpecTable.substrings r) /\ occurs_nocase p u)
  \/ (exists p, In p (SpecTable.prefixes r) /\
                exists a b, u = a ++ b /\ lower a = p).
Proof.
  unfold SpecTable.matches. rewrite orb_true_iff, !existsb_exists.
  split; (intros [(p & Hin & H) | (p & Hin & H)]; [left | right]);
    exists p; (split; [exact Hin|]).
  - now apply contains_lower.
  - apply startswith_spec in H. destruct H as [post H].
    destruct (lower_split _ _ _ H) as (a & b & -> & Ha & _). now exists a, b.
  - now apply contains_lower.
  - destruct H as (a & b & -> & <-). apply startswith_spec.
    exists (lower b). apply lower_app.
Qed.

Lemma substring_matches (r : SpecTable.row) (p u : string) :
  In p (SpecTable.substrings r) -> occurs_nocase p u ->
  SpecTable.matches r (lower u) = true.
Proof. intros Hin H. apply matches_nocase. left. now exists p. Qed.

(** C2. In the idle state [handle_command] dispatches by ordered,
    first-match-wins search of the fixed table (add task, list tasks,
    screenshot, open browser, time, exit): the utterance is echoed and then
    exactly the effect of the first row that matches is run; a row matches
    through its substrings (or prefix) without regard to the case of the
    utterance; an utterance holding both "add task" and "time" gets the
    add-task prompt; one that no row matches gets exactly the fixed
    not-understood answer. *)
Theorem dispatch_is_ordered_first_match (e : Env) (u : string) (st : App) :
  (forall before r after,
      SpecTable.table = (before ++ r :: after)%list ->
      (forall r', In r' before -> SpecTable.matches r' (lower u) = false) ->
      SpecTable.matches r (lower u) = true ->
      handle_command e u append_transcript st
      = (append_transcript ("You: " ++ lower u ++ NL) ;;
         SpecTable.effect r e append_transcript) st)
  /\ (forall r,
      SpecTable.matches r (lower u) = true <->
      (exists p, In p (SpecTable.substrings r) /\ occurs_nocase p u)
      \/ (exists p, In p (SpecTable.prefixes r) /\
                    exists a b, u = a ++ b /\ lower a = p))
  /\ (occurs_nocase "add task" u -> occurs_nocase "time" u ->
      handle_command e u append_transcript st
      = (Ok St_awaiting_task,
         logged [echo u; Say "What is the task?";
                 Transcript ("Assistant: What is the task?" ++ NL)] st))
  /\ ((forall r, In r SpecTable.table ->
                 SpecTable.matches r (lower u) = false) ->
      handle_command e u append_transcript st
      = (Ok St_done,
         logged (echo u :: answer "I didn't understand that. Try again.") st)).
Proof.
  rewrite handle_command_table. unfold SpecTable.dispatch.
  split; [|split; [|split]].
  - intros before r after Htable Hbefore Hr.
    now rewrite Htable, (find_first _ _ _ _ Hbefore Hr).
  - intros r. apply matches_nocase.
  - intros Hadd _.
    assert (Hm : SpecTable.matches SpecTable.add_task_row (lower u) = true)
      by (apply (substring_matches _ "add task"); [now left | exact Hadd]).
    cbn [find SpecTable.table]. rewrite Hm.
    unfold SpecTable.effect, SpecTable.add_task_row, SpecTable.add_task_effect,
      logged, echo.
    run_m. reflexivity.
  - intros Hnone. rewrite (find_nobody _ _ Hnone).
    unfold SpecTable.not_understood, logged, echo, answer. run_m. reflexivity.
Qed.

Lemma dispatch_is_ordered_first_match_witness :
  handle_command afternoon "Add Task: check the TIME" append_transcript
                 two_tasks
  = (Ok St_awaiting_task,
     logged [Transcript ("You: add task: check the time" ++ NL);
             Say "What is the task?";
             Transcript ("Assistant: What is the task?" ++ NL)] two_tasks)
  /\ handle_command afternoon "Hello there" append_transcript two_tasks
     = (Ok St_done,
        logged [Transcript ("You: hello there" ++ NL);
                Transcript ("Assistant: I didn't understand that. Try again."
                            ++ NL);
                Say "I didn't understand that. Try again."] two_tasks).
Proof.
  split.
  - destruct (dispatch_is_ordered_first_match
                afternoon "Add Task: check the TIME" two_tasks)
      as (_ & _ & Hadd & _).
    apply Hadd; apply contains_lower; reflexivity.
  - destruct (dispatch_is_ordered_first_match
                afternoon "Hello there" two_tasks)
      as (_ & _ & _ & Hnone).
    apply Hnone. intros r Hin. cbn in Hin.
    repeat (destruct Hin as [<- | Hin]; [reflexivity|]). destruct Hin.
Defined.

(** C3. An utterance that holds "time" in some casing and that none of the
    four earlier rows matches is answered, shown and said, with the clock of
    the moment as a 12-hour HH:MM AM/PM text, and [handle_command] returns
    'done': the text has eight characters, the hour field is the hour
    modulo 12 with 12 for 0, both fields have two digits, AM is before
    noon; at 14:05 the answer is "The time is 02:05 PM". *)
Theorem time_row_speaks_the_clock (e : Env) (u : string) (st : App) :
  existsb (fun r => SpecTable.matches r (lower u))
          [SpecTable.add_task_row; SpecTable.list_tasks_row;
           SpecTable.screenshot_row; SpecTable.open_browser_row] = false ->
  occurs_nocase "time" u ->
  let h := now_hour e in
  let m := now_minute e in
  handle_command e u append_transcript st
  = (Ok St_done,
     logged (echo u :: answer ("The time is " ++ strftime_I_M_p h m)) st)
  /\ strftime_I_M_p h m
     = two_digits (hour12 h) ++ ":" ++ two_digits m ++ " "
       ++ (if (h <? 12)%nat then "AM" else "PM")
  /\ String.length (strftime_I_M_p h m) = 8
  /\ 1 <= hour12 h <= 12
  /\ hour12 h mod 12 = h mod 12
  /\ (h = 14 -> m = 5 ->
      answer ("The time is " ++ strftime_I_M_p h m)
      = [Transcript ("Assistant: The time is 02:05 PM" ++ NL);
         Say "The time is 02:05 PM"]).
Proof.
  intros Hearlier Htime h m.
  split; [|split; [reflexivity | split; [|split; [apply hour12_range | split;
    [apply hour12_mod | intros -> ->; reflexivity]]]]].
  2:{ unfold strftime_I_M_p, am_pm. destruct (h <? 12)%nat; reflexivity. }
  cbn [existsb] in Hearlier. rewrite !orb_false_iff in Hearlier.
  destruct Hearlier as (H1 & H2 & H3 & H4 & _).
  assert (Hm : SpecTable.matches SpecTable.time_row (lower u) = true)
    by (apply (substring_matches _ "time"); [now left | exact Htime]).
  rewrite handle_command_table. unfold SpecTable.dispatch.
  cbn [find SpecTable.table]. rewrite H1, H2, H3, H4, Hm.
  unfold SpecTable.effect, SpecTable.time_row, SpecTable.time_effect,
    logged, echo, answer.
  run_m. reflexivity.
Qed.

Lemma time_row_speaks_the_clock_witness :
  handle_command afternoon "What's the TIME" append_transcript two_tasks
  = (Ok St_done,
     logged [Transcript ("You: what's the time" ++ NL);
             Transcript ("Assistant: The time is 02:05 PM" ++ NL);
             Say "The time is 02:05 PM"] two_tasks).
Proof.
  assert (Hearlier :
      existsb (fun r => SpecTable.matches r (lower "What's the TIME"))
              [SpecTable.add_task_row; SpecTable.list_tasks_row;
               SpecTable.screenshot_row; SpecTable.open_browser_row] = false)
    by reflexivity.
  assert (Htime : occurs_nocase "time" "What's the TIME")
    by (apply contains_lower; reflexivity).
  destruct (time_row_speaks_the_clock afternoon "What's the TIME" two_tasks
              Hearlier Htime) as (Hrun & _).
  exact Hrun.
Defined.

(** C4. An utterance of the list-tasks row ("list tasks" or "show tasks"
    in it, the add-task row not matching) is answered with one shown and
    said line per stored task, in the order of the store, and with the one
    no-tasks line when the store is empty: none but that line on an empty
    store, exactly the lines of T1 then T2 on the store [T1; T2]. *)
Theorem list_tasks_lines (e : Env) (u : string) (st : App) :
  SpecTable.matches SpecTable.add_task_row (lower u) = false ->
  SpecTable.matches SpecTable.list_tasks_row (lower u) = true ->
  handle_command e u append_transcript st
  = (Ok St_done,
     logged (echo u :: (if nonempty (tasks st)
                        then flat_map answer (tasks st)
                        else answer "You have no tasks.")) st)
  /\ (tasks st = [] ->
      log (exec (handle_command e u append_transcript) st)
      = (log st ++ [echo u;
                    Transcript ("Assistant: You have no tasks." ++ NL);
                    Say "You have no tasks."])%list)
  /\ (forall t1 t2, tasks st = [t1; t2] ->
      log (exec (handle_command e u append_transcript) st)
      = (log st ++ [echo u;
                    Transcript ("Assistant: " ++ t1 ++ NL); Say t1;
                    Transcript ("Assistant: " ++ t2 ++ NL); Say t2])%list).
Proof.
  intros Hadd Hlist.
  assert (E : handle_command e u append_transcript st
              = (Ok St_done,
                 logged (echo u :: (if nonempty (tasks st)
                                    then flat_map answer (tasks st)
                                    else answer "You have no tasks.")) st)).
  { rewrite handle_command_table. unfold SpecTable.dispatch.
    cbn [find SpecTable.table]. rewrite Hadd, Hlist.
    unfold SpecTable.effect, SpecTable.list_tasks_row,
      SpecTable.list_tasks_effect.
    destruct (nonempty (tasks st)) eqn:Hne.
    - unfold bind at 1. unfold append_transcript at 1, emit at 1, modify at 1.
      fold (logged [Transcript ("You: " ++ lower u ++ NL)] st).
      unfold bind at 1, gets at 1. cbn [tasks logged set_log]. rewrite Hne.
      unfold bind at 1. rewrite for_each_answer.
      fold (logged [Transcript ("You: " ++ lower u ++ NL)] st).
      rewrite logged_logged. reflexivity.
    - unfold logged, echo, answer. run_m. rewrite Hne. run_m. reflexivity. }
  split; [exact E | split].
  - intros Ht. unfold exec. rewrite E, Ht. reflexivity.
  - intros t1 t2 Ht. unfold exec. rewrite E, Ht. reflexivity.
Qed.

Lemma list_tasks_lines_witness :
  log (exec (handle_command afternoon "Show Tasks" append_transcript)
            two_tasks)
  = (log two_tasks ++ [Transcript ("You: show tasks" ++ NL);
                       Transcript ("Assistant: buy milk" ++ NL);
                       Say "buy milk";
                       Transcript ("Assistant: call mom" ++ NL);
                       Say "call mom"])%list
  /\ log (exec (handle_command afternoon "list tasks" append_transcript)
               (startup true None))
     = (log (startup true None)
        ++ [Transcript ("You: list tasks" ++ NL);
            Transcript ("Assistant: You have no tasks." ++ NL);
            Say "You have no tasks."])%list.
Proof.
  split.
  - destruct (list_tasks_lines afternoon "Show Tasks" two_tasks
                eq_refl eq_refl) as (_ & _ & Htwo).
    apply (Htwo "buy milk" "call mom"). reflexivity.
  - destruct (list_tasks_lines afternoon "list tasks" (startup true None)
                eq_refl eq_refl) as (_ & Hnone & _).
    apply Hnone. reflexivity.
Defined.

(* ================================================================== *)
(** ** Frame rules *)
(* ================================================================== *)

Section FrameRules.

Context (R : App -> App -> Prop) `{Frame R}.

Lemma preserves_ret {A} (a : A) : preserves R (ret a).
Proof. intros st. apply frame_refl. Qed.

Lemma preserves_raise {A} (exc : string) : preserves R (@raise A exc).
Proof. intros st. apply frame_refl. Qed.

Lemma preserves_gets {A} (f : App -> A) : preserves R (gets f).
Proof. intros st. apply frame_refl. Qed.

Lemma preserves_emit (ev : event) : preserves R (emit ev).
Proof. intros st. apply frame_log. Qed.

Lemma preserves_modify (f : App -> App) :
  (forall st, R st (f st)) -> preserves R (modify f).
Proof. intros Hf st. apply Hf. Qed.

Lemma preserves_bind {A B} (c : M A) (k : A -> M B) :
  preserves R c -> (forall a, preserves R (k a)) -> preserves R (bind c k).
Proof.
  intros Hc Hk st. specialize (Hc st). unfold exec, bind in *.
  destruct (c st) as [[a|exc] st']; cbn in *; [|exact Hc].
  eapply frame_trans; [exact Hc | apply Hk].
Qed.

(** The continuation may depend on what was read from the very state it
    runs in. *)
Lemma preserves_gets_bind {A B} (f : App -> A) (k : A -> M B) :
  (forall st, R st (exec (k (f st)) st)) -> preserves R (bind (gets f) k).
Proof. intros Hk st. apply Hk. Qed.

Lemma preserves_try_except {A} (c : M A) (h : string -> M A) :
  preserves R c -> (forall exc, preserves R (h exc)) ->
  preserves R (try_except c h).
Proof.
  intros Hc Hh st. specialize (Hc st). unfold exec, try_except in *.
  destruct (c st) as [[a|exc] st']; cbn in *; [exact Hc|].
  eapply frame_trans; [exact Hc | apply Hh].
Qed.

Lemma preserves_try_finally {A} (c : M A) (f : M unit) :
  preserves R c -> preserves R f -> preserves R (try_finally c f).
Proof.
  intros Hc Hf st. specialize (Hc st). unfold exec, try_finally in *.
  destruct (c st) as [r st']; cbn in *.
  specialize (Hf st'). unfold exec in Hf.
  destruct (f st') as [[[]|exc] st'']; cbn in *;
    exact (frame_trans _ _ _ Hc Hf).
Qed.

Lemma preserves_for_each {A} (xs : list A) (body : A -> M unit) :
  (forall x, preserves R (body x)) -> preserves R (for_each xs body).
Proof.
  intros Hb. induction xs as [|x xs IH]; cbn [for_each].
  - apply preserves_ret.
  - apply preserves_bind; [apply Hb | intros _; exact IH].
Qed.

Lemma preserves_speak (text : string) : preserves R (speak text).
Proof. apply preserves_emit. Qed.

Lemma preserves_append_transcript (text : string) :
  preserves R (append_transcript text).
Proof. apply preserves_emit. Qed.

Lemma preserves_screenshot (e : Env) (path : string) :
  preserves R (screenshot e path).
Proof.
  unfold screenshot. destruct (screenshot_fault e);
    [apply preserves_raise | apply preserves_emit].
Qed.

(** [handle_command] changes nothing that a relation blind to the log
    can see, whichever row it takes and whether or not it raises. *)
Lemma preserves_handle_command (e : Env) (u : string) :
  preserves R (handle_command e u append_transcript).
Proof.
  unfold handle_command.
  repeat first
    [ apply preserves_ret
    | apply preserves_gets
    | apply preserves_speak
    | apply preserves_append_transcript
    | apply preserves_emit
    | apply preserves_screenshot
    | apply preserves_for_each; intros ?
    | apply preserves_bind; [|intros ?]
    | match goal with
      | |- preserves R (if ?b then _ else _) => destruct b
      end ].
Qed.

End FrameRules.

Arguments preserves_ret {R _ A} a.
Arguments preserves_raise {R _ A} exc.
Arguments preserves_gets {R _ A} f.
Arguments preserves_emit {R _} ev.
Arguments preserves_modify {R} f.
Arguments preserves_bind {R _ A B} c k.
Arguments preserves_gets_bind {R A B} f k.
Arguments preserves_try_except {R _ A} c h.
Arguments preserves_try_finally {R _ A} c f.
Arguments preserves_for_each {R _ A} xs body.
Arguments preserves_speak {R _} text.
Arguments preserves_append_transcript {R _} text.
Arguments preserves_screenshot {R _} e path.
Arguments preserves_handle_command {R _} e u.

#[local] Instance same_tasks_frame : Frame same_tasks.
Proof. split; unfold same_tasks; intros; cbn; congruence. Qed.

#[local] Instance same_but_listening_frame : Frame same_but_listening.
Proof.
  split; unfold same_but_listening.
  - intros []; reflexivity.
  - intros [] [] [] Hab Hbc. unfold set_log, set_listening_flag in *.
    cbn in *. injection Hab. injection Hbc. intros. subst. reflexivity.
  - intros l []; reflexivity.
Qed.

#[local] Instance evolves_frame : Frame evolves.
Proof.
  split; unfold evolves.
  - intros st. repeat split; auto. exists []. now rewrite app_nil_r.
  - intros a b c (Hm & (x & Hx) & Hq) (Hm' & (y & Hy) & Hq').
    repeat split; [congruence | | auto].
    exists (x ++ y)%list. now rewrite Hy, Hx, app_assoc.
  - intros l st. cbn. repeat split; auto. exists []. now rewrite app_nil_r.
Qed.

#[local] Instance keeps_quiet_frame : Frame (keeps quiet).
Proof.
  split; unfold keeps, quiet; [auto | auto | intros l st; cbn; auto].
Qed.

Ltac frame_step :=
  lazymatch goal with
  | |- preserves _ (ret _) => apply preserves_ret
  | |- preserves _ (raise _) => apply preserves_raise
  | |- preserves _ (gets _) => apply preserves_gets
  | |- preserves _ (emit _) => apply preserves_emit
  | |- preserves _ (speak _) => apply preserves_speak
  | |- preserves _ (append_transcript _) => apply preserves_append_transcript
  | |- preserves _ (screenshot _ _) => apply preserves_screenshot
  | |- preserves _ (handle_command _ _ append_transcript) =>
      apply preserves_handle_command
  | |- preserves _ (for_each _ _) => apply preserves_for_each; intros ?
  | |- preserves _ (try_except _ _) => apply preserves_try_except; [|intros ?]
  | |- preserves _ (try_finally _ _) => apply preserves_try_finally
  | |- preserves _ (bind _ _) => apply preserves_bind; [|intros ?]
  | |- preserves _ (if ?b then _ else _) => destruct b eqn:?
  | |- preserves _ (match ?x with _ => _ end) => destruct x eqn:?
  | |- preserves _ (let _ := _ in _) => cbv zeta
  end.

(** A write [modify f], once [f] is shown to keep the relation. *)
Ltac modify_leaf tac :=
  idtac;
  lazymatch goal with
  | |- preserves _ (modify _) => apply preserves_modify; tac
  end.

Ltac frame := repeat frame_step.

(** The same, with [known] tried on every goal before it is taken apart. *)
Ltac frame_with known := repeat first [known | frame_step].

(* ================================================================== *)
(** ** What each operation does *)
(* ================================================================== *)

Lemma stop_listen_run (st : App) :
  stop_listen st = (Ok tt, listening_stopped st).
Proof. unfold stop_listen, listening_stopped, logged. run_m. reflexivity. Qed.

Lemma toggle_listen_run (st : App) :
  toggle_listen st
  = (Ok tt,
     if vosk_model st then
       if listening_flag st then listening_stopped st
       else listening_started st
     else
       logged [ShowError "Model missing"
                 "VOSK model not found. Put model folder next to script."] st).
Proof.
  unfold toggle_listen. unfold bind at 1, gets at 1.
  destruct (vosk_model st); cbn [negb].
  - unfold bind at 1, gets at 1. destruct (listening_flag st).
    + apply stop_listen_run.
    + unfold listening_started, logged. run_m. reflexivity.
  - unfold logged. run_m. reflexivity.
Qed.

(** The writes of [save_tasks] from the [i]-th on, into a file that holds
    [c]: they stop at the write the environment fails. *)
Lemma write_lines_run (e : Env) (ts : list string) :
  forall (i : nat) (c : string) (st : App),
    tasks_txt st = Some c ->
    write_lines e i ts st
    = match io_fault e with
      | Some (k, exc) =>
          if ((i <=? k) && (k <? i + length ts))%nat then
            (Raised exc,
             set_tasks_txt
               (Some (c ++ SpecTable.serialize (firstn (k - i) ts))) st)
          else
            (Ok tt, set_tasks_txt (Some (c ++ SpecTable.serialize ts)) st)
      | None => (Ok tt, set_tasks_txt (Some (c ++ SpecTable.serialize ts)) st)
      end.
Proof.
  assert (Hnil : forall c st, tasks_txt st = Some c ->
                 set_tasks_txt (Some (c ++ EmptyString)) st = st).
  { intros c st Hc. rewrite append_nil_r, <- Hc. now destruct st. }
  induction ts as [|t ts IH]; intros i c st Hc.
  - cbn [write_lines length SpecTable.serialize fold_right firstn].
    unfold ret. rewrite Nat.add_0_r.
    destruct (io_fault e) as [[k exc]|]; [|now rewrite Hnil].
    replace ((i <=? k) && (k <? i))%nat with false; [now rewrite Hnil|].
    symmetry. apply andb_false_iff.
    destruct (Nat.leb_spec i k); [right; apply Nat.ltb_ge; lia | now left].
  - cbn [write_lines length]. unfold bind, f_write, file_call.
    destruct (io_fault e) as [[k exc]|] eqn:Hio.
    + destruct (Nat.eqb_spec i k) as [->|Hne].
      * unfold raise.
        replace ((k <=? k) && (k <? k + S (length ts)))%nat with true
          by (symmetry; apply andb_true_iff; split;
              [apply Nat.leb_le | apply Nat.ltb_lt]; lia).
        rewrite Nat.sub_diag. cbn [firstn SpecTable.serialize fold_right].
        now rewrite Hnil.
      * unfold modify. rewrite Hc. cbn [res_get_text].
        rewrite (IH (S i) (c ++ t ++ NL)) by reflexivity.
        replace ((S i <=? k) && (k <? S i + length ts))%nat
          with ((i <=? k) && (k <? i + S (length ts)))%nat.
        2:{ destruct (Nat.leb_spec i k), (Nat.leb_spec (S i) k),
              (Nat.ltb_spec k (i + S (length ts))),
              (Nat.ltb_spec k (S i + length ts)); try reflexivity; lia. }
        destruct ((i <=? k) && (k <? i + S (length ts)))%nat eqn:Hin.
        -- apply andb_true_iff in Hin. destruct Hin as [Hle _].
           apply Nat.leb_le in Hle.
           replace (k - i) with (S (k - S i)) by lia.
           cbn [firstn SpecTable.serialize fold_right].
           unfold set_tasks_txt. cbn. now rewrite !append_assoc.
        -- cbn [SpecTable.serialize fold_right].
           unfold set_tasks_txt. cbn. now rewrite !append_assoc.
    + unfold modify. rewrite Hc. cbn [res_get_text].
      rewrite (IH (S i) (c ++ t ++ NL)) by reflexivity.
      cbn [SpecTable.serialize fold_right].
      unfold set_tasks_txt. cbn. now rewrite !append_assoc.
Qed.

Lemma save_tasks_run (e : Env) (st : App) :
  save_tasks e st = (Ok tt, saved e st).
Proof.
  unfold save_tasks, saved, try_except, open_w, file_call.
  unfold bind at 1.
  destruct (io_fault e) as [[[|k] exc]|] eqn:Hio.
  - cbn [Nat.eqb]. unfold raise, logged. run_m. reflexivity.
  - cbn [Nat.eqb].
    unfold bind at 1 2, modify at 1, emit at 1, modify at 1, gets at 1.
    cbn [tasks set_log set_tasks_txt].
    unfold bind at 1.
    rewrite (write_lines_run e _ 1 EmptyString) by reflexivity.
    rewrite Hio.
    change ((1 <=? S k) && (S k <? 1 + length (tasks st)))%nat
      with (k <? length (tasks st))%nat.
    destruct (k <? length (tasks st))%nat.
    + replace (S k - 1) with k by lia.
      unfold logged. run_m. reflexivity.
    + unfold logged. run_m. reflexivity.
  - unfold bind at 1 2, modify at 1, emit at 1, modify at 1, gets at 1.
    cbn [tasks set_log set_tasks_txt].
    unfold bind at 1.
    rewrite (write_lines_run e _ 1 EmptyString) by reflexivity.
    rewrite Hio. unfold logged. run_m. reflexivity.
Qed.

Lemma on_close_run (e : Env) (st : App) :
  on_close e st
  = (Ok tt,
     if askokcancel e then
       logged [AskOkCancel "Quit" "Do you want to quit?"; Destroy]
         (set_listening_flag false st)
     else logged [AskOkCancel "Quit" "Do you want to quit?"] st).
Proof.
  unfold on_close, logged. destruct (askokcancel e); run_m; reflexivity.
Qed.

(** The poll keeps every relation that its four writes keep: the
    dispatcher flag, the append to the store, the clearing of the listening
    flag on exit, and the removal of the head of the text queue. *)
Section PollFrame.

Context (R : App -> App -> Prop) `{Frame R}.
Hypothesis R_awaiting : forall b st, R st (set_awaiting_task b st).
Hypothesis R_append : forall txt st, R st (set_tasks (tasks st ++ [txt]) st).
Hypothesis R_clear : forall st, R st (set_listening_flag false st).
Hypothesis R_pop :
  forall txt rest st, text_q st = txt :: rest -> R st (set_text_q rest st).

Lemma preserves_on_close (e : Env) : preserves R (on_close e).
Proof.
  unfold on_close.
  frame_with ltac:(modify_leaf ltac:(exact R_clear)).
Qed.

Lemma preserves_process_text (e : Env) (txt : string) :
  preserves R (process_text e txt).
Proof.
  unfold process_text.
  frame_with ltac:(first [ apply preserves_on_close
                         | modify_leaf ltac:(intros ?;
                             first [apply R_awaiting | apply R_append]) ]).
Qed.

Lemma preserves_get_nowait : preserves R text_q_get_nowait.
Proof.
  unfold text_q_get_nowait. apply preserves_gets_bind. intros st.
  destruct (text_q st) as [|txt rest] eqn:Hq.
  - apply frame_refl.
  - unfold exec, bind, modify, ret. cbn. now apply (R_pop txt).
Qed.

Lemma preserves_drain (e : Env) (fuel : nat) : preserves R (drain fuel e).
Proof.
  induction fuel as [|fuel IH]; cbn [drain];
    frame_with ltac:(first [ apply preserves_get_nowait
                           | apply preserves_process_text
                           | exact IH ]).
Qed.

Lemma preserves_check_text_queue (e : Env) : preserves R (check_text_queue e).
Proof.
  unfold check_text_queue.
  frame_with ltac:(intros st; apply preserves_drain).
Qed.

End PollFrame.

#[local] Instance same_text_q_frame : Frame same_text_q.
Proof. split; unfold same_text_q; intros; cbn; congruence. Qed.

Lemma process_text_keeps_queue (e : Env) (txt : string) :
  preserves same_text_q (process_text e txt).
Proof. apply preserves_process_text; [exact _ | | |]; reflexivity. Qed.

Lemma drain_nil (e : Env) (fuel : nat) (st : App) :
  text_q st = [] -> drain fuel e st = (Ok tt, st).
Proof.
  intros Hq. destruct fuel; [reflexivity|].
  cbn [drain]. cbv [bind gets]. now rewrite Hq.
Qed.

Lemma drain_cons (e : Env) (fuel : nat) (st : App) (txt : string)
    (rest : list string) :
  text_q st = txt :: rest ->
  drain (S fuel) e st
  = match process_text e txt (set_text_q rest st) with
    | (Ok _, st2) => drain fuel e st2
    | (Raised exc, st2) => (Raised exc, st2)
    end.
Proof.
  intros Hq. cbn [drain]. cbv [bind gets text_q_get_nowait modify ret].
  rewrite Hq. cbn [nonempty]. rewrite Hq.
  destruct (process_text e txt (set_text_q rest st)) as [[[]|exc] st2];
    reflexivity.
Qed.

(** The length of the queue on entry is fuel enough for the loop of the
    poll: more fuel changes nothing. *)
Lemma drain_fuel_enough (e : Env) (fuel : nat) :
  forall st, length (text_q st) <= fuel ->
             drain fuel e st = drain (length (text_q st)) e st.
Proof.
  induction fuel as [|fuel IH]; intros st Hlen.
  - destruct (text_q st); [reflexivity | cbn in Hlen; lia].
  - destruct (text_q st) as [|txt rest] eqn:Hq.
    + now rewrite !drain_nil.
    + cbn [length]. rewrite !(drain_cons _ _ _ _ _ Hq).
      pose proof (process_text_keeps_queue e txt (set_text_q rest st)) as Hk.
      unfold same_text_q, exec in Hk. cbn [text_q set_text_q] in Hk.
      destruct (process_text e txt (set_text_q rest st)) as [[[]|exc] st2];
        [|reflexivity].
      cbn [snd] in Hk. cbn [length] in Hlen.
      rewrite IH by (rewrite Hk; lia). now rewrite Hk.
Qed.


Ltac evolves_solve :=
  unfold evolves; cbn;
  split; [reflexivity
         | split; [first [exists []; now rewrite app_nil_r
                         | eexists; reflexivity]
                  | solve [auto]]].

Ltac evolves_leaf := idtac; modify_leaf ltac:(intros ?st; evolves_solve).

Ltac quiet_leaf :=
  idtac; modify_leaf ltac:(intros ?st; unfold keeps, quiet; cbn; tauto).

Lemma run_preserves (R : App -> App -> Prop) `{Frame R} :
  (forall e o, preserves R (run_op e o)) ->
  forall ops st, R st (run ops st).
Proof.
  intros Hop ops. unfold run.
  induction ops as [|[e o] ops IH]; intros st; cbn [fold_left fst snd].
  - apply frame_refl.
  - eapply frame_trans; [apply Hop | apply IH].
Qed.

(** *** The relation [evolves] *)

Lemma evolves_stt_recognise (e : Env) (data : chunk) :
  preserves evolves (stt_recognise e data).
Proof.
  unfold stt_recognise, accept_waveform.
  frame_with ltac:(first
    [ match goal with
      | Ht : truthy ?txt = true |- preserves _ (text_q_put ?txt) =>
          apply preserves_modify; intros st; unfold evolves; cbn;
          split; [reflexivity | split];
          [ exists []; now rewrite app_nil_r
          | intros Hq; apply Forall_app; split; [exact Hq|];
            constructor; [|constructor]; split;
            [now apply truthy_true | apply strip_stripped] ]
      end
    | evolves_leaf ]).
Qed.

Lemma evolves_run_op (e : Env) (o : op) : preserves evolves (run_op e o).
Proof.
  destruct o; cbn [run_op].
  - intros st. unfold exec. rewrite toggle_listen_run. cbn [snd].
    destruct (vosk_model st) eqn:Hv, (listening_flag st); evolves_solve.
  - intros st. unfold exec. rewrite stop_listen_run. evolves_solve.
  - intros st. unfold exec. rewrite save_tasks_run. cbn [snd]. unfold saved.
    destruct (io_fault e) as [[[|k] exc]|];
      try destruct (k <? length (tasks st))%nat; evolves_solve.
  - apply preserves_on_close; [exact _ | intros st; evolves_solve].
  - apply preserves_check_text_queue; [exact _ | | | |];
      try (intros; evolves_solve).
    intros txt rest st Hq. unfold evolves; cbn.
    split; [reflexivity | split; [exists []; now rewrite app_nil_r|]].
    rewrite Hq. intros Hall. now inversion Hall.
  - unfold sd_callback. frame_with evolves_leaf.
  - unfold stt_worker.
    frame_with ltac:(first [ apply evolves_stt_recognise
                           | evolves_leaf ]).
Qed.

(** *** The invariant [quiet] *)

Lemma quiet_run_op (e : Env) (o : op) : preserves (keeps quiet) (run_op e o).
Proof.
  destruct o; cbn [run_op].
  - intros st Hq. destruct Hq as (Hv & Hf & Hw). unfold exec. rewrite toggle_listen_run, Hv.
    cbn. unfold quiet. cbn. auto.
  - intros st Hq. destruct Hq as (Hv & Hf & Hw). unfold exec. rewrite stop_listen_run.
    cbn. unfold quiet. cbn. auto.
  - intros st Hq. destruct Hq as (Hv & Hf & Hw). unfold exec. rewrite save_tasks_run.
    cbn [snd]. unfold saved.
    destruct (io_fault e) as [[[|k] exc]|];
      try destruct (k <? length (tasks st))%nat;
      unfold quiet; cbn; auto.
  - apply preserves_on_close; [exact _ | intros st; unfold keeps, quiet; cbn;
      tauto].
  - apply preserves_check_text_queue; [exact _ | | | |];
      intros; unfold keeps, quiet; cbn; tauto.
  - unfold sd_callback. frame_with quiet_leaf.
  - intros st Hq. destruct Hq as (Hv & Hf & Hw).
    unfold exec, stt_worker, bind, gets.
    rewrite Hw, Hf. cbn. unfold quiet. auto.
Qed.

(** No operation lets an exception out: the window and the threads go on. *)
Lemma run_op_returns (e : Env) (o : op) (st : App) :
  result (run_op e o) st = Ok tt.
Proof.
  unfold result. destruct o as [| | | | |warn indata|]; cbn [run_op].
  - now rewrite toggle_listen_run.
  - now rewrite stop_listen_run.
  - now rewrite save_tasks_run.
  - now rewrite on_close_run.
  - unfold check_text_queue, try_finally, try_except, emit, modify.
    destruct (drain (length (text_q st)) e st) as [[[]|exc] st'];
      reflexivity.
  - unfold sd_callback. destruct warn; reflexivity.
  - unfold stt_worker, bind, gets.
    destruct (worker st); [destruct (listening_flag st); reflexivity| |
      reflexivity].
    destruct (audio_q st) as [|data rest]; [reflexivity|].
    unfold modify, try_except.
    destruct (stt_recognise e data (set_audio_q rest st)) as [[[]|exc] st'];
      reflexivity.
Qed.

(* ================================================================== *)
(** ** Saving the Task Store *)
(* ================================================================== *)

(** C5. A save that gets through leaves in tasks.txt, opened for writing
    as UTF-8, the tasks of the store in their order, each followed by a
    line feed.  What it writes is a function of the task list alone: any
    state with the same tasks gives the same file, and so does a second
    save on an unchanged store. *)
Theorem save_writes_one_task_per_line (e1 e2 : Env) (st : App) :
  io_fault e1 = None -> io_fault e2 = None ->
  let st1 := exec (save_tasks e1) st in
  let st2 := exec (save_tasks e2) st1 in
  tasks_txt st1 = Some (SpecTable.serialize (tasks st))
  /\ log st1 = (log st ++ [FileOpen "tasks.txt" "w" "utf-8";
                           ShowInfo "Saved" "Tasks saved to tasks.txt"])%list
  /\ SpecTable.serialize [] = EmptyString
  /\ (forall t ts,
         SpecTable.serialize (t :: ts) = t ++ NL ++ SpecTable.serialize ts)
  /\ tasks st1 = tasks st
  /\ tasks_txt st2 = tasks_txt st1
  /\ (forall st', tasks st' = tasks st ->
         tasks_txt (exec (save_tasks e2) st') = tasks_txt st1).
Proof.
  intros H1 H2. unfold exec. rewrite !save_tasks_run. cbn [snd].
  unfold saved. rewrite H1, H2. cbn.
  repeat split; try reflexivity.
  intros st' Hst'. rewrite save_tasks_run. cbn [snd]. unfold saved.
  rewrite H2. cbn. now rewrite Hst'.
Qed.

Lemma save_writes_one_task_per_line_witness :
  tasks_txt (exec (save_tasks afternoon) two_tasks)
  = Some ("buy milk" ++ NL ++ "call mom" ++ NL)
  /\ tasks_txt (exec (save_tasks afternoon)
                     (exec (save_tasks afternoon) two_tasks))
     = Some ("buy milk" ++ NL ++ "call mom" ++ NL).
Proof.
  destruct (save_writes_one_task_per_line afternoon afternoon two_tasks
              eq_refl eq_refl) as (Hfile & _ & _ & _ & _ & Hagain & _).
  cbv zeta in Hagain. rewrite Hagain, Hfile. split; reflexivity.
Defined.

(** C6. [save_tasks] never lets the exception of a failed file call out:
    when the open or one of the writes raises, the error dialog shows the
    message of the exception and no confirmation is shown; when nothing
    raises, the confirmation dialog is shown.  In every case the Task Store
    and the dispatcher state are what they were. *)
Theorem save_failure_shows_error_keeps_store (e : Env) (st : App) :
  let st' := exec (save_tasks e) st in
  result (save_tasks e) st = Ok tt
  /\ tasks st' = tasks st
  /\ awaiting_task st' = awaiting_task st
  /\ (forall exc, io_fault e = Some (0, exc) ->
        log st' = (log st ++ [ShowError "Error" exc])%list)
  /\ (forall k exc, io_fault e = Some (S k, exc) -> k < length (tasks st) ->
        log st' = (log st ++ [FileOpen "tasks.txt" "w" "utf-8";
                              ShowError "Error" exc])%list)
  /\ (io_fault e = None ->
        log st' = (log st ++ [FileOpen "tasks.txt" "w" "utf-8";
                              ShowInfo "Saved" "Tasks saved to tasks.txt"])%list).
Proof.
  unfold exec, result. rewrite save_tasks_run. cbn [fst snd]. unfold saved.
  split; [reflexivity|].
  split; [|split].
  - destruct (io_fault e) as [[[|k] exc]|];
      try destruct (k <? length (tasks st))%nat; reflexivity.
  - destruct (io_fault e) as [[[|k] exc]|];
      try destruct (k <? length (tasks st))%nat; reflexivity.
  - split; [|split].
    + intros exc ->. reflexivity.
    + intros k exc -> Hk. apply Nat.ltb_lt in Hk. rewrite Hk. reflexivity.
    + intros ->. reflexivity.
Qed.

Lemma save_failure_shows_error_keeps_store_witness :
  tasks (exec (save_tasks disk_full) two_tasks) = ["buy milk"; "call mom"]
  /\ log (exec (save_tasks disk_full) two_tasks)
     = (log two_tasks
        ++ [FileOpen "tasks.txt" "w" "utf-8";
            ShowError "Error" "[Errno 28] No space left on device"])%list
  /\ log (exec (save_tasks read_only) two_tasks)
     = (log two_tasks
        ++ [ShowError "Error" "[Errno 13] Permission denied: 'tasks.txt'"])%list.
Proof.
  destruct (save_failure_shows_error_keeps_store disk_full two_tasks)
    as (_ & Htasks & _ & _ & Hwrite & _).
  destruct (save_failure_shows_error_keeps_store read_only two_tasks)
    as (_ & _ & _ & Hopen & _).
  split; [rewrite Htasks; reflexivity|].
  split.
  - apply (Hwrite 1); [reflexivity | apply le_n].
  - apply Hopen. reflexivity.
Defined.

(* ================================================================== *)
(** ** Starting and stopping to listen *)
(* ================================================================== *)

Lemma same_but_listening_toggle (st : App) :
  same_but_listening st (exec toggle_listen st).
Proof.
  unfold exec. rewrite toggle_listen_run. cbn [snd].
  destruct (vosk_model st), (listening_flag st); now destruct st.
Qed.

Lemma same_but_listening_stop (st : App) :
  same_but_listening st (exec stop_listen st).
Proof. unfold exec. rewrite stop_listen_run. now destruct st. Qed.

(** C9. With the model loaded and listening off, Start Listening followed
    at once by Stop (or by a second press of the listen button) gives back
    the state it started from, with four more lines of user interface in
    the log: the Task Store, the dispatcher state, the queues and the file
    are untouched and the listening flag is clear again.  In any state at
    all, [toggle_listen] and [stop_listen] change nothing but the listening
    flag and the log of user-interface calls. *)
Theorem listen_on_off_changes_nothing (st : App) :
  vosk_model st = true -> listening_flag st = false ->
  let on := exec toggle_listen st in
  let ui := [ListenBtn "Listening..." "#DFF7E0";
             Transcript ("Assistant: Listening..." ++ NL);
             ListenBtn "Start Listening" "#FFDFE4";
             Transcript ("Assistant: Stopped listening." ++ NL)] in
  listening_flag on = true
  /\ exec stop_listen on = logged ui st
  /\ exec toggle_listen on = logged ui st
  /\ tasks (logged ui st) = tasks st
  /\ awaiting_task (logged ui st) = awaiting_task st
  /\ listening_flag (logged ui st) = false
  /\ (forall s, same_but_listening s (exec toggle_listen s)
                /\ same_but_listening s (exec stop_listen s)).
Proof.
  intros Hv Hf on ui. subst on ui. unfold exec.
  rewrite !toggle_listen_run, !stop_listen_run. cbn [snd]. rewrite Hv, Hf.
  cbn [vosk_model listening_flag listening_started logged set_log
       set_listening_flag]. rewrite Hv.
  repeat split; try reflexivity; try assumption.
  - unfold listening_stopped, logged. destruct st; cbn in *. subst.
    now rewrite <- app_assoc.
  - unfold listening_stopped, logged. destruct st; cbn in *. subst.
    now rewrite <- app_assoc.
  - apply same_but_listening_toggle.
  - apply same_but_listening_stop.
Qed.

Lemma listen_on_off_changes_nothing_witness :
  listening_flag (exec toggle_listen two_tasks) = true
  /\ tasks (exec stop_listen (exec toggle_listen two_tasks))
     = ["buy milk"; "call mom"]
  /\ awaiting_task (exec stop_listen (exec toggle_listen two_tasks)) = false
  /\ listening_flag (exec stop_listen (exec toggle_listen two_tasks)) = false.
Proof.
  destruct (listen_on_off_changes_nothing two_tasks eq_refl eq_refl)
    as (Hon & Hoff & _ & Htasks & Hawait & Hflag & _).
  cbv zeta in Hoff. rewrite Hoff.
  split; [exact Hon|]. split; [rewrite Htasks; reflexivity|].
  split; [rewrite Hawait; reflexivity | exact Hflag].
Defined.

(* ================================================================== *)
(** ** What does not depend on the recognition model *)
(* ================================================================== *)

Lemma blind_ret {A} (a : A) : model_blind (ret a).
Proof. intros b st. reflexivity. Qed.

Lemma blind_raise {A} (exc : string) : model_blind (@raise A exc).
Proof. intros b st. reflexivity. Qed.

Lemma blind_gets {A} (f : App -> A) :
  (forall b st, f (set_vosk_model b st) = f st) -> model_blind (gets f).
Proof. intros Hf b st. unfold gets. cbn. now rewrite Hf. Qed.

Lemma blind_modify (f : App -> App) :
  (forall b st, f (set_vosk_model b st) = set_vosk_model b (f st)) ->
  model_blind (modify f).
Proof. intros Hf b st. unfold modify. cbn. now rewrite Hf. Qed.

Lemma blind_emit (ev : event) : model_blind (emit ev).
Proof. apply blind_modify. reflexivity. Qed.

Lemma blind_bind {A B} (c : M A) (k : A -> M B) :
  model_blind c -> (forall a, model_blind (k a)) -> model_blind (bind c k).
Proof.
  intros Hc Hk b st. unfold bind. rewrite Hc.
  destruct (c st) as [[a|exc] st']; cbn [fst snd]; [apply Hk | reflexivity].
Qed.

Lemma blind_try_except {A} (c : M A) (h : string -> M A) :
  model_blind c -> (forall exc, model_blind (h exc)) ->
  model_blind (try_except c h).
Proof.
  intros Hc Hh b st. unfold try_except. rewrite Hc.
  destruct (c st) as [[a|exc] st']; cbn [fst snd]; [reflexivity | apply Hh].
Qed.

Lemma blind_try_finally {A} (c : M A) (f : M unit) :
  model_blind c -> model_blind f -> model_blind (try_finally c f).
Proof.
  intros Hc Hf b st. unfold try_finally. rewrite Hc.
  destruct (c st) as [r st']; cbn [fst snd]. rewrite Hf.
  destruct (f st') as [[[]|exc] st'']; reflexivity.
Qed.

Lemma blind_for_each {A} (xs : list A) (body : A -> M unit) :
  (forall x, model_blind (body x)) -> model_blind (for_each xs body).
Proof.
  intros Hb. induction xs as [|x xs IH]; cbn [for_each].
  - apply blind_ret.
  - apply blind_bind; [apply Hb | intros _; exact IH].
Qed.

Ltac blind_step :=
  lazymatch goal with
  | |- model_blind (ret _) => apply blind_ret
  | |- model_blind (raise _) => apply blind_raise
  | |- model_blind (gets _) => apply blind_gets; reflexivity
  | |- model_blind (modify _) => apply blind_modify; reflexivity
  | |- model_blind (emit _) => apply blind_emit
  | |- model_blind (speak _) => apply blind_emit
  | |- model_blind (append_transcript _) => apply blind_emit
  | |- model_blind (for_each _ _) => apply blind_for_each; intros ?
  | |- model_blind (try_except _ _) => apply blind_try_except; [|intros ?]
  | |- model_blind (try_finally _ _) => apply blind_try_finally
  | |- model_blind (bind _ _) => apply blind_bind; [|intros ?]
  | |- model_blind (if ?b then _ else _) => destruct b
  | |- model_blind (match ?x with _ => _ end) => destruct x
  | |- model_blind (let _ := _ in _) => cbv zeta
  end.

Ltac blind_with known := repeat first [known | blind_step].

Lemma blind_handle_command (e : Env) (u : string) :
  model_blind (handle_command e u append_transcript).
Proof. unfold handle_command, screenshot. blind_with fail. Qed.

Lemma blind_process_text (e : Env) (txt : string) :
  model_blind (process_text e txt).
Proof.
  unfold process_text, on_close.
  blind_with ltac:(apply blind_handle_command).
Qed.

Lemma blind_drain (e : Env) (fuel : nat) : model_blind (drain fuel e).
Proof.
  induction fuel as [|fuel IH]; cbn [drain]; unfold text_q_get_nowait;
    blind_with ltac:(first [apply blind_process_text | exact IH]).
Qed.

Lemma blind_write_lines (e : Env) (ts : list string) :
  forall i, model_blind (write_lines e i ts).
Proof.
  induction ts as [|t ts IH]; intros i; cbn [write_lines];
    unfold f_write, file_call; blind_with ltac:(apply IH).
Qed.

(** Stop, Save, closing the window, the poll and the audio callback do
    the same with and without a recognition model. *)
Lemma blind_run_op (e : Env) (o : op) :
  needs_no_model o = true -> model_blind (run_op e o).
Proof.
  destruct o as [| | | | |warn indata|]; cbn [needs_no_model run_op];
    try discriminate; intros _.
  - unfold stop_listen. blind_with fail.
  - unfold save_tasks, open_w, file_call.
    blind_with ltac:(apply blind_write_lines).
  - unfold on_close. blind_with fail.
  - unfold check_text_queue.
    blind_with ltac:(intros b st; apply (blind_drain e _ b st)).
  - unfold sd_callback. blind_with fail.
Qed.

(* ================================================================== *)
(** ** The recognition model, the recogniser and the Task Store over
       whole runs *)
(* ================================================================== *)

(** C7. Without the recognition model, the listen button only shows the
    "Model missing" error: [toggle_listen] returns, and nothing but the log
    has changed, so the listening flag is not set.  In every run that
    starts without the model the flag stays clear, the model stays missing
    and the recognition thread stays parked at its wait, so it never
    touches the absent recogniser.  No operation of the program ever lets an
    exception out, and Stop, Save Tasks, the poll, the audio callback and
    closing the window do exactly what they do when the model is there. *)
Theorem missing_model_refuses_to_listen (st : App) :
  vosk_model st = false ->
  toggle_listen st
  = (Ok tt,
     logged [ShowError "Model missing"
               "VOSK model not found. Put model folder next to script."] st)
  /\ listening_flag (exec toggle_listen st) = listening_flag st
  /\ (forall old_file, quiet (startup false old_file))
  /\ (forall ops s, quiet s -> quiet (run ops s))
  /\ (forall e o s, result (run_op e o) s = Ok tt)
  /\ (forall e o b s,
        needs_no_model o = true ->
        run_op e o (set_vosk_model b s)
        = (fst (run_op e o s), set_vosk_model b (snd (run_op e o s)))).
Proof.
  intros Hv. rewrite (surjective_pairing (toggle_listen st)) at 1.
  unfold exec. rewrite toggle_listen_run, Hv. cbn [fst snd].
  split; [reflexivity|]. split; [reflexivity|].
  split; [intros old_file; repeat split|].
  split; [|split].
  - intros ops s. apply (run_preserves (keeps quiet)). apply quiet_run_op.
  - apply run_op_returns.
  - intros e o b s Ho. now apply blind_run_op.
Qed.

Lemma missing_model_refuses_to_listen_witness :
  toggle_listen (startup false None)
  = (Ok tt,
     logged [ShowError "Model missing"
               "VOSK model not found. Put model folder next to script."]
            (startup false None))
  /\ listening_flag
       (run [(afternoon, Click_listen); (afternoon, Audio None []);
             (afternoon, Worker); (afternoon, Click_listen);
             (afternoon, Poll)]
            (startup false None)) = false.
Proof.
  destruct (missing_model_refuses_to_listen (startup false None) eq_refl)
    as (Hrun & _ & Hstart & Hkeep & _).
  split; [exact Hrun|].
  apply (Hkeep _ _ (Hstart None)).
Defined.

(** C8. The recognition thread queues a text only for a finalised result,
    and then the text of the result with the white space of its two ends
    removed, when that is not empty: a partial result queues nothing, a
    final result that is empty, all white space, or has no text queues
    nothing.  Hence in every run of the program every text in the queue is
    non-empty and has no white space at its ends. *)
Theorem recogniser_queues_only_stripped_text
    (e : Env) (data : chunk) (st : App) :
  vosk_model st = true ->
  let heard := kaldi e (fed st ++ [data]) in
  let st' := exec (stt_recognise e data) st in
  (heard = Partial -> text_q st' = text_q st)
  /\ (forall text, heard = Final text ->
        let txt := strip (res_get_text text) in
        (txt <> EmptyString -> text_q st' = (text_q st ++ [txt])%list)
        /\ (txt = EmptyString -> text_q st' = text_q st)
        /\ (txt = EmptyString <-> all_space (res_get_text text) = true)
        /\ stripped txt)
  /\ (forall ops model_ok old_file,
        Forall utterance_ok (text_q (run ops (startup model_ok old_file)))).
Proof.
  intros Hv heard st'. subst heard st'.
  unfold stt_recognise, accept_waveform, text_q_put.
  run_m. rewrite Hv. run_m.
  split; [|split].
  - intros ->. reflexivity.
  - intros text ->. cbv zeta.
    split; [|split; [|split]].
    + intros Hne. apply truthy_true in Hne. rewrite Hne. reflexivity.
    + intros ->. reflexivity.
    + apply strip_empty_iff.
    + apply strip_stripped.
  - intros ops model_ok old_file.
    apply (run_preserves evolves evolves_run_op ops (startup model_ok old_file)).
    constructor.
Qed.

Lemma recogniser_queues_only_stripped_text_witness :
  text_q (exec (stt_recognise (hears (Some "  buy milk ")) []) two_tasks)
  = ["buy milk"]
  /\ text_q (exec (stt_recognise (hears (Some "   ")) []) two_tasks) = []
  /\ text_q (exec (stt_recognise (hears None) []) two_tasks) = []
  /\ text_q (exec (stt_recognise afternoon []) two_tasks) = [].
Proof.
  destruct (recogniser_queues_only_stripped_text
              (hears (Some "  buy milk ")) [] two_tasks eq_refl)
    as (_ & Hfinal & _).
  destruct (Hfinal (Some "  buy milk ") eq_refl) as (Hput & _).
  destruct (recogniser_queues_only_stripped_text
              (hears (Some "   ")) [] two_tasks eq_refl)
    as (_ & Hblank & _).
  destruct (Hblank (Some "   ") eq_refl) as (_ & Hdrop & _).
  destruct (recogniser_queues_only_stripped_text
              (hears None) [] two_tasks eq_refl)
    as (_ & Hnone & _).
  destruct (Hnone None eq_refl) as (_ & Hdrop' & _).
  destruct (recogniser_queues_only_stripped_text afternoon [] two_tasks
              eq_refl) as (Hpartial & _).
  cbv zeta in *.
  split; [rewrite Hput; [reflexivity | discriminate]|].
  split; [apply Hdrop; reflexivity|].
  split; [apply Hdrop'; reflexivity | apply Hpartial; reflexivity].
Defined.

Lemma same_tasks_run_op (e : Env) (o : op) :
  o <> Poll -> preserves same_tasks (run_op e o).
Proof.
  destruct o as [| | | | |warn indata|]; cbn [run_op]; intros Ho;
    try congruence.
  - intros st. unfold exec. rewrite toggle_listen_run. cbn [snd].
    destruct (vosk_model st), (listening_flag st); reflexivity.
  - intros st. unfold exec. now rewrite stop_listen_run.
  - intros st. unfold exec. rewrite save_tasks_run. cbn [snd]. unfold saved.
    destruct (io_fault e) as [[[|k] exc]|];
      try destruct (k <? length (tasks st))%nat; reflexivity.
  - intros st. unfold exec. rewrite on_close_run. cbn [snd].
    destruct (askokcancel e); reflexivity.
  - unfold sd_callback. frame_with ltac:(modify_leaf ltac:(reflexivity)).
  - unfold stt_worker, stt_recognise, accept_waveform, text_q_put.
    frame_with ltac:(modify_leaf ltac:(reflexivity)).
Qed.

Lemma same_tasks_idle (e : Env) (u : string) (st : App) :
  awaiting_task st = false -> same_tasks st (exec (process_text e u) st).
Proof.
  intros Hidle.
  assert (P : preserves same_tasks
                (result_state <- handle_command e u append_transcript ;;
                 match result_state with
                 | St_awaiting_task => modify (set_awaiting_task true)
                 | St_exit => on_close e
                 | St_done => ret tt
                 end)).
  { frame_with ltac:(first
      [ modify_leaf ltac:(reflexivity)
      | apply preserves_on_close; [exact _ | reflexivity] ]). }
  specialize (P st). unfold process_text, exec in *.
  unfold bind at 1, gets at 1. now rewrite Hidle.
Qed.

(** C10. [handle_command] leaves the Task Store as it is, for every
    utterance, in every state, whichever row answers and even when the
    screenshot raises.  The poll changes the store only when a task
    description is awaited, and then by appending the utterance; no other
    operation changes it.  So over any run of the program the store the run
    started with is a prefix of the store it ends with. *)
Theorem task_store_is_append_only (e : Env) (u : string) (st : App) :
  tasks (exec (handle_command e u append_transcript) st) = tasks st
  /\ (awaiting_task st = false ->
      tasks (exec (process_text e u) st) = tasks st)
  /\ (awaiting_task st = true ->
      tasks (exec (process_text e u) st) = (tasks st ++ [u])%list)
  /\ (forall o, o <> Poll -> tasks (exec (run_op e o) st) = tasks st)
  /\ (forall ops, exists added, tasks (run ops st) = (tasks st ++ added)%list).
Proof.
  split; [apply (preserves_handle_command (R := same_tasks))|].
  split; [apply same_tasks_idle|].
  split; [|split].
  - intros Haw. unfold exec, process_text. unfold bind at 1, gets at 1.
    rewrite Haw. run_m. reflexivity.
  - intros o Ho. now apply same_tasks_run_op.
  - intros ops.
    apply (run_preserves evolves evolves_run_op ops st).
Qed.

Lemma task_store_is_append_only_witness :
  tasks (exec (handle_command no_display "take a screenshot"
                              append_transcript) two_tasks)
  = ["buy milk"; "call mom"]
  /\ tasks (exec (process_text afternoon "add task") two_tasks)
     = ["buy milk"; "call mom"]
  /\ tasks (exec (process_text afternoon "add task") pending)
     = ["buy milk"; "add task"].
Proof.
  destruct (task_store_is_append_only no_display "take a screenshot"
              two_tasks) as (Hshot & _).
  destruct (task_store_is_append_only afternoon "add task" two_tasks)
    as (_ & Hidle & _).
  destruct (task_store_is_append_only afternoon "add task" pending)
    as (_ & _ & Hfill & _).
  split; [rewrite Hshot; reflexivity|].
  split; [rewrite (Hidle eq_refl); reflexivity|].
  rewrite (Hfill eq_refl). reflexivity.
Defined.

(* ================================================================== *)
(** ** Worked examples *)
(* ================================================================== *)

Example strftime_1405 : strftime_I_M_p 14 5 = "02:05 PM".
Proof. reflexivity. Qed.

Example strftime_midnight : strftime_I_M_p 0 0 = "12:00 AM".
Proof. reflexivity. Qed.

Example strftime_noon : strftime_I_M_p 12 30 = "12:30 PM".
Proof. reflexivity. Qed.

Example lower_latin1 :
  lower "Add TASK Now" = "add task now"
  /\ lower_char (ascii_of_nat 201) = ascii_of_nat 233
  /\ lower_char (ascii_of_nat 215) = ascii_of_nat 215.
Proof. repeat split. Qed.

Example strip_inner_space : strip "  buy  milk " = "buy  milk".
Proof. reflexivity. Qed.

(** Both spellings of the list command select the list row, and the add
    row does not take them. *)
Example list_and_show_select_the_list_row :
  forall u, u = "list tasks" \/ u = "show tasks" ->
  SpecTable.matches SpecTable.add_task_row (lower u) = false
  /\ SpecTable.matches SpecTable.list_tasks_row (lower u) = true.
Proof. intros u [-> | ->]; split; reflexivity. Qed.

(** The prefix of the add row takes an utterance that only starts with
    "add". *)
Example addition_is_taken_by_the_add_row :
  result (handle_command afternoon "Addition of time" append_transcript)
         two_tasks = Ok St_awaiting_task.
Proof. reflexivity. Qed.

(** "add task" and then "buy milk", found queued by one poll: the store
    becomes ["buy milk"] and the dispatcher is idle again. *)
Example add_task_then_buy_milk :
  let st := exec (check_text_queue afternoon)
                 (set_text_q ["add task"; "buy milk"] (startup true None)) in
  tasks st = ["buy milk"] /\ awaiting_task st = false /\ text_q st = []
  /\ log st
     = [Transcript ("Assistant: Ready. Click Start Listening to begin." ++ NL);
        After 200;
        Transcript ("You: add task" ++ NL);
        Say "What is the task?";
        Transcript ("Assistant: What is the task?" ++ NL);
        Transcript ("Assistant: Added task: buy milk" ++ NL);
        Say "Task added";
        After 200].
Proof. repeat split. Qed.

(** A screenshot that raises ends the poll: the message is printed, the
    rest of the queue waits for the next poll, the timer is re-armed. *)
Example failed_screenshot_ends_the_poll :
  let st := exec (check_text_queue no_display)
                 (set_text_q ["screenshot"; "list tasks"] two_tasks) in
  text_q st = ["list tasks"]
  /\ tasks st = ["buy milk"; "call mom"]
  /\ log st
     = (log two_tasks
        ++ [Transcript ("You: screenshot" ++ NL);
            Stdout ("Queue check error: screen grab failed" ++ NL);
            After 200])%list.
Proof. repeat split. Qed.

(** Listening, one buffer, one worker round: the stripped text is queued
    and the next poll dispatches it. *)
Example heard_then_dispatched :
  let e := hears (Some " what's the time ") in
  let st := run [(e, Click_listen); (e, Audio None []); (e, Worker);
                 (e, Worker); (e, Poll)] (startup true None) in
  text_q st = [] /\ listening_flag st = true /\ worker st = W_wait
  /\ In (Say "The time is 02:05 PM") (log st).
Proof. repeat split. cbv. tauto. Qed.

(* ================================================================== *)
(** ** Further properties: the dispatcher as a function *)
(* ================================================================== *)

(** [handle_command] only adds to the log: the echo line, then what the
    selected row shows, says and does. *)
Lemma handle_command_run (e : Env) (u : string) (st : App) :
  handle_command e u append_transcript st
  = (fst (reply e u st), logged (echo u :: snd (reply e u st)) st).
Proof.
  rewrite handle_command_table. unfold SpecTable.dispatch, reply.
  cbn [find SpecTable.table].
  destruct (SpecTable.matches SpecTable.add_task_row (lower u)).
  { unfold logged, echo. cbn [SpecTable.effect SpecTable.add_task_row].
    unfold SpecTable.add_task_effect. run_m. reflexivity. }
  destruct (SpecTable.matches SpecTable.list_tasks_row (lower u)).
  { cbn [SpecTable.effect SpecTable.list_tasks_row fst snd].
    unfold SpecTable.list_tasks_effect.
    destruct (nonempty (tasks st)) eqn:Hne.
    - unfold bind at 1. unfold append_transcript at 1, emit at 1, modify at 1.
      fold (logged [Transcript ("You: " ++ lower u ++ NL)] st).
      unfold bind at 1, gets at 1. cbn [tasks logged set_log]. rewrite Hne.
      unfold bind at 1. rewrite for_each_answer.
      fold (logged [Transcript ("You: " ++ lower u ++ NL)] st).
      rewrite logged_logged. reflexivity.
    - unfold logged, echo, answer. run_m. rewrite Hne. run_m. reflexivity. }
  destruct (SpecTable.matches SpecTable.screenshot_row (lower u)).
  { cbn [SpecTable.effect SpecTable.screenshot_row].
    unfold SpecTable.screenshot_effect, screenshot, screenshot_path,
      screenshot_name, logged, echo.
    destruct (screenshot_fault e); run_m; reflexivity. }
  destruct (SpecTable.matches SpecTable.open_browser_row (lower u)).
  { cbn [SpecTable.effect SpecTable.open_browser_row].
    unfold SpecTable.open_browser_effect, logged, echo. run_m. reflexivity. }
  destruct (SpecTable.matches SpecTable.time_row (lower u)).
  { cbn [SpecTable.effect SpecTable.time_row].
    unfold SpecTable.time_effect, logged, echo, answer. run_m. reflexivity. }
  destruct (SpecTable.matches SpecTable.exit_row (lower u)).
  { cbn [SpecTable.effect SpecTable.exit_row].
    unfold SpecTable.exit_effect, logged, echo. run_m. reflexivity. }
  unfold SpecTable.not_understood, logged, echo, answer. run_m. reflexivity.
Qed.

Lemma process_text_run (e : Env) (u : string) (st : App) :
  process_text e u st = processed e u st.
Proof.
  unfold process_text, processed. unfold bind at 1, gets at 1.
  destruct (awaiting_task st).
  - unfold task_filled. run_m. reflexivity.
  - unfold bind at 1. rewrite handle_command_run.
    destruct (fst (reply e u st)) as [[]|exc]; try reflexivity.
    rewrite on_close_run. reflexivity.
Qed.



(** X2. The dispatcher state after one utterance of the poll: a task
    description is awaited exactly when none was awaited before and the
    utterance is taken by the add-task row.  No other row, no failure of a
    row and no answer to the quit dialog sets it, and an awaited
    description always clears it. *)
Theorem awaiting_task_transition (e : Env) (u : string) (st : App) :
  awaiting_task (exec (process_text e u) st)
  = negb (awaiting_task st)
    && SpecTable.matches SpecTable.add_task_row (lower u).
Proof.
  unfold exec. rewrite process_text_run. unfold processed.
  destruct (awaiting_task st) eqn:Haw; [reflexivity|].
  cbn [negb andb]. unfold reply.
  destruct (SpecTable.matches SpecTable.add_task_row (lower u));
    [reflexivity|].
  destruct (SpecTable.matches SpecTable.list_tasks_row (lower u));
    [exact Haw|].
  destruct (SpecTable.matches SpecTable.screenshot_row (lower u));
    [destruct (screenshot_fault e); exact Haw|].
  destruct (SpecTable.matches SpecTable.open_browser_row (lower u));
    [exact Haw|].
  destruct (SpecTable.matches SpecTable.time_row (lower u)); [exact Haw|].
  destruct (SpecTable.matches SpecTable.exit_row (lower u)); [|exact Haw].
  cbn [fst snd]. unfold closed. destruct (askokcancel e); exact Haw.
Qed.

(** X3. An utterance taken by the exit row while the dispatcher is idle:
    "Goodbye!" is shown and said first, then the user is asked whether to
    quit.  On Cancel nothing but the log has changed, so the assistant goes
    on listening after having said goodbye; on OK the listening flag is
    cleared and the window destroyed.  The Task Store is not saved. *)
Theorem exit_says_goodbye_then_asks (e : Env) (u : string) (st : App) :
  selects_exit u = true -> awaiting_task st = false ->
  let farewell := [echo u; Transcript ("Assistant: Goodbye!" ++ NL);
                   Say "Goodbye"; quit_dialog] in
  process_text e u st
  = (Ok tt,
     if askokcancel e
     then logged (farewell ++ [Destroy]) (set_listening_flag false st)
     else logged farewell st)
  /\ tasks_txt (exec (process_text e u) st) = tasks_txt st.
Proof.
  unfold selects_exit. cbn [existsb]. rewrite andb_true_iff, negb_true_iff.
  rewrite !orb_false_iff. intros [(H1 & H2 & H3 & H4 & H5 & _) H6] Haw.
  unfold exec. rewrite process_text_run. unfold processed, reply.
  rewrite Haw, H1, H2, H3, H4, H5, H6. cbn [fst snd]. unfold closed.
  destruct (askokcancel e); split; try reflexivity;
    unfold logged, set_log, set_listening_flag; cbn;
    now rewrite <- app_assoc.
Qed.

Lemma exit_says_goodbye_then_asks_witness :
  process_text afternoon "Goodbye" two_tasks
  = (Ok tt,
     logged [Transcript ("You: goodbye" ++ NL);
             Transcript ("Assistant: Goodbye!" ++ NL);
             Say "Goodbye"; quit_dialog; Destroy]
            (set_listening_flag false two_tasks)).
Proof.
  destruct (exit_says_goodbye_then_asks afternoon "Goodbye" two_tasks
              eq_refl eq_refl) as (Hrun & _).
  exact Hrun.
Defined.

(* ================================================================== *)
(** ** Further properties: the poll *)
(* ================================================================== *)

Lemma check_text_queue_run (e : Env) (st : App) :
  check_text_queue e st
  = (Ok tt,
     logged [After 200]
       (match drain (length (text_q st)) e st with
        | (Ok _, st1) => st1
        | (Raised exc, st1) =>
            logged [Stdout ("Queue check error: " ++ exc ++ NL)] st1
        end)).
Proof.
  unfold check_text_queue, try_finally, try_except.
  destruct (drain (length (text_q st)) e st) as [[[]|exc] st1];
    unfold logged; run_m; reflexivity.
Qed.





(** X5. A screenshot that raises ends the poll at that utterance: the
    utterance has been echoed, the exception is printed, the utterances
    queued behind it stay queued in their order for the next poll, the
    timer is re-armed, and the Task Store and the dispatcher state are
    what they were. *)
Theorem failed_screenshot_stops_the_poll
    (e : Env) (u exc : string) (rest : list string) (st : App) :
  text_q st = u :: rest -> awaiting_task st = false ->
  selects_screenshot u = true -> screenshot_fault e = Some exc ->
  check_text_queue e st
  = (Ok tt,
     logged [echo u; Stdout ("Queue check error: " ++ exc ++ NL); After 200]
            (set_text_q rest st)).
Proof.
  unfold selects_screenshot. rewrite !andb_true_iff, !negb_true_iff.
  intros Hq Haw [[H1 H2] H3] Hs.
  rewrite check_text_queue_run, Hq. cbn [length].
  rewrite (drain_cons _ _ _ _ _ Hq), process_text_run.
  unfold processed, reply. cbn [awaiting_task set_text_q].
  rewrite Haw, H1, H2, H3, Hs. cbn [fst snd].
  unfold logged, set_log, set_text_q. cbn. now rewrite <- !app_assoc.
Qed.

Lemma failed_screenshot_stops_the_poll_witness :
  check_text_queue no_display
    (set_text_q ["screenshot"; "list tasks"] two_tasks)
  = (Ok tt,
     logged [Transcript ("You: screenshot" ++ NL);
             Stdout ("Queue check error: screen grab failed" ++ NL);
             After 200]
            (set_text_q ["list tasks"] two_tasks)).
Proof.
  exact (failed_screenshot_stops_the_poll no_display "screenshot"
           "screen grab failed" ["list tasks"]
           (set_text_q ["screenshot"; "list tasks"] two_tasks)
           eq_refl eq_refl eq_refl eq_refl).
Defined.





Lemma process_text_tasks (e : Env) (u : string) (st : App) :
  tasks (exec (process_text e u) st)
  = if awaiting_task st then (tasks st ++ [u])%list else tasks st.
Proof.
  unfold exec. rewrite process_text_run. unfold processed.
  destruct (awaiting_task st); [reflexivity|].
  destruct (fst (reply e u st)) as [[]|exc]; try reflexivity.
  cbn [snd]. unfold closed. destruct (askokcancel e); reflexivity.
Qed.

Lemma drain_texts_ok (e : Env) (fuel : nat) :
  forall st, texts_ok st -> texts_ok (exec (drain fuel e) st).
Proof.
  induction fuel as [|fuel IH]; intros st Hok; [exact Hok|].
  destruct (text_q st) as [|u rest] eqn:Hq.
  - unfold exec. now rewrite drain_nil.
  - unfold exec. rewrite (drain_cons _ _ _ _ _ Hq).
    destruct Hok as [Htasks Hqueue]. rewrite Hq in Hqueue.
    inversion Hqueue as [|? ? Hu Hrest]; subst.
    pose proof (process_text_tasks e u (set_text_q rest st)) as Ht.
    pose proof (process_text_keeps_queue e u (set_text_q rest st)) as Hk.
    unfold same_text_q, exec in *. cbn [tasks text_q awaiting_task set_text_q]
      in Ht, Hk.
    assert (Hok2 : texts_ok (snd (process_text e u (set_text_q rest st)))).
    { split; [|now rewrite Hk]. rewrite Ht.
      destruct (awaiting_task st); [|exact Htasks].
      apply Forall_app. split; [exact Htasks | now constructor]. }
    destruct (process_text e u (set_text_q rest st)) as [[[]|exc] st2];
      cbn [snd] in *; [now apply IH | exact Hok2].
Qed.

#[local] Instance keeps_texts_ok_frame : Frame (keeps texts_ok).
Proof.
  split; unfold keeps, texts_ok; [auto | auto | intros l st; cbn; auto].
Qed.

Lemma texts_ok_run_op (e : Env) (o : op) :
  preserves (keeps texts_ok) (run_op e o).
Proof.
  intros st [Htasks Hqueue].
  destruct (evolves_run_op e o st) as (_ & _ & Hq).
  split; [|now apply Hq].
  assert (Hdec : o = Poll \/ o <> Poll)
    by (destruct o; (now left) || (right; discriminate)).
  destruct Hdec as [-> | Hne].
  - cbn [run_op]. unfold exec. rewrite check_text_queue_run. cbn [snd].
    pose proof (drain_texts_ok e (length (text_q st)) st (conj Htasks Hqueue))
      as [Ht _].
    unfold exec in Ht.
    destruct (drain (length (text_q st)) e st) as [[[]|exc] st1]; exact Ht.
  - pose proof (same_tasks_run_op e o Hne st) as Hsame.
    unfold same_tasks in Hsame. now rewrite Hsame.
Qed.

(** X7. Every task in the Task Store, in every state the program reaches,
    is a text the recogniser queued: it is not empty and has no white space
    at either end.  The same holds for every text still waiting in the text
    queue. *)
Theorem stored_tasks_are_stripped_utterances
    (ops : list (Env * op)) (model_ok : bool) (old_file : option string) :
  Forall utterance_ok (tasks (run ops (startup model_ok old_file)))
  /\ Forall utterance_ok (text_q (run ops (startup model_ok old_file))).
Proof.
  apply (run_preserves (keeps texts_ok) texts_ok_run_op ops
           (startup model_ok old_file)).
  split; constructor.
Qed.

(* ================================================================== *)
(** ** Further properties: who writes what *)
(* ================================================================== *)

#[local] Instance keeps_not_listening_frame : Frame (keeps not_listening).
Proof.
  split; unfold keeps, not_listening; [auto | auto | intros l st; cbn; auto].
Qed.

#[local] Instance same_awaiting_frame : Frame same_awaiting.
Proof. split; unfold same_awaiting; intros; cbn; congruence. Qed.

#[local] Instance same_file_frame : Frame same_file.
Proof. split; unfold same_file; intros; cbn; congruence. Qed.

#[local] Instance same_audio_frame : Frame same_audio.
Proof.
  split; unfold same_audio; [auto | | intros l st; cbn; auto].
  intros a b c (? & ? & ?) (? & ? & ?). repeat split; congruence.
Qed.

Lemma not_listening_run_op (e : Env) (o : op) :
  o <> Click_listen -> preserves (keeps not_listening) (run_op e o).
Proof.
  destruct o as [| | | | |warn indata|]; cbn [run_op]; intros Ho;
    try congruence.
  - intros st _. unfold exec. now rewrite stop_listen_run.
  - intros st Hf. unfold exec. rewrite save_tasks_run. cbn [snd].
    unfold saved.
    destruct (io_fault e) as [[[|k] exc]|];
      try destruct (k <? length (tasks st))%nat; exact Hf.
  - intros st Hf. unfold exec. rewrite on_close_run. cbn [snd].
    destruct (askokcancel e); [reflexivity | exact Hf].
  - apply preserves_check_text_queue; [exact _ | | | |];
      intros; unfold keeps, not_listening; cbn; auto.
  - unfold sd_callback.
    frame_with ltac:(modify_leaf ltac:(intros ? ?; assumption)).
  - unfold stt_worker, stt_recognise, accept_waveform, text_q_put.
    frame_with ltac:(modify_leaf ltac:(intros ? ?; assumption)).
Qed.

Lemma same_awaiting_run_op (e : Env) (o : op) :
  o <> Poll -> preserves same_awaiting (run_op e o).
Proof.
  destruct o as [| | | | |warn indata|]; cbn [run_op]; intros Ho;
    try congruence.
  - intros st. unfold exec. rewrite toggle_listen_run. cbn [snd].
    destruct (vosk_model st), (listening_flag st); reflexivity.
  - intros st. unfold exec. now rewrite stop_listen_run.
  - intros st. unfold exec. rewrite save_tasks_run. cbn [snd]. unfold saved.
    destruct (io_fault e) as [[[|k] exc]|];
      try destruct (k <? length (tasks st))%nat; reflexivity.
  - intros st. unfold exec. rewrite on_close_run. cbn [snd].
    destruct (askokcancel e); reflexivity.
  - unfold sd_callback. frame_with ltac:(modify_leaf ltac:(reflexivity)).
  - unfold stt_worker, stt_recognise, accept_waveform, text_q_put.
    frame_with ltac:(modify_leaf ltac:(reflexivity)).
Qed.

Lemma same_file_run_op (e : Env) (o : op) :
  o <> Click_save -> preserves same_file (run_op e o).
Proof.
  destruct o as [| | | | |warn indata|]; cbn [run_op]; intros Ho;
    try congruence.
  - intros st. unfold exec. rewrite toggle_listen_run. cbn [snd].
    destruct (vosk_model st), (listening_flag st); reflexivity.
  - intros st. unfold exec. now rewrite stop_listen_run.
  - intros st. unfold exec. rewrite on_close_run. cbn [snd].
    destruct (askokcancel e); reflexivity.
  - apply preserves_check_text_queue; [exact _ | | | |]; reflexivity.
  - unfold sd_callback. frame_with ltac:(modify_leaf ltac:(reflexivity)).
  - unfold stt_worker, stt_recognise, accept_waveform, text_q_put.
    frame_with ltac:(modify_leaf ltac:(reflexivity)).
Qed.

(** X8. Each piece of state has one writer.  Only the listen button sets
    the listening flag: no utterance, poll, dialog or background thread
    starts listening.  Only the poll changes the dispatcher state.  Only
    Save Tasks touches tasks.txt: adding a task, saying "exit" or closing
    the window never writes the file.  Nothing changes whether the model is
    loaded. *)
Theorem each_field_has_one_writer (e : Env) (o : op) (st : App) :
  let st' := exec (run_op e o) st in
  (o <> Click_listen ->
   listening_flag st = false -> listening_flag st' = false)
  /\ (o <> Poll -> awaiting_task st' = awaiting_task st)
  /\ (o <> Click_save -> tasks_txt st' = tasks_txt st)
  /\ vosk_model st' = vosk_model st.
Proof.
  cbv zeta. split; [|split; [|split]].
  - intros Ho. apply (not_listening_run_op e o Ho st).
  - intros Ho. apply (same_awaiting_run_op e o Ho st).
  - intros Ho. apply (same_file_run_op e o Ho st).
  - apply (evolves_run_op e o st).
Qed.

(* ================================================================== *)
(** ** Further properties: the audio pipeline *)
(* ================================================================== *)

Lemma sd_callback_run (warn : option string) (indata : chunk) (st : App) :
  sd_callback warn indata st
  = (Ok tt,
     set_audio_q (audio_q st ++ [indata])
       (logged match warn with
               | Some s => [Stdout ("SoundDevice status: " ++ s ++ NL)]
               | None => []
               end st)).
Proof.
  unfold sd_callback, logged. destruct warn; run_m; [reflexivity|].
  rewrite app_nil_r. reflexivity.
Qed.

(** A worker parked at its wait while nobody listens does nothing. *)
Lemma stt_worker_parked (e : Env) (st : App) :
  worker st = W_wait -> listening_flag st = false ->
  stt_worker e st = (Ok tt, st).
Proof.
  intros Hw Hf. unfold stt_worker, bind, gets. now rewrite Hw, Hf.
Qed.

Lemma run_cons (e : Env) (o : op) (ops : list (Env * op)) (st : App) :
  run ((e, o) :: ops) st = run ops (exec (run_op e o) st).
Proof. reflexivity. Qed.

Lemma exec_audio (e : Env) (warn : option string) (indata : chunk)
    (st : App) :
  exec (run_op e (Audio warn indata)) st
  = set_audio_q (audio_q st ++ [indata])
      (logged match warn with
              | Some s => [Stdout ("SoundDevice status: " ++ s ++ NL)]
              | None => []
              end st).
Proof. unfold exec. cbn [run_op]. now rewrite sd_callback_run. Qed.

(** X9. While nobody listens and the recognition thread is at its wait,
    the sound device and the thread, however often they run, recognise
    nothing and drop nothing: the text queue, the Task Store and the
    recogniser are untouched, and every captured buffer is added to the
    audio queue in capture order, where it waits until listening starts. *)
Theorem audio_piles_up_while_not_listening
    (ops : list (Env * op)) (st : App) :
  listening_flag st = false -> worker st = W_wait ->
  forallb (fun eo => background (snd eo)) ops = true ->
  let st' := run ops st in
  audio_q st' = (audio_q st ++ captured ops)%list
  /\ text_q st' = text_q st
  /\ fed st' = fed st
  /\ tasks st' = tasks st
  /\ listening_flag st' = false
  /\ worker st' = W_wait.
Proof.
  revert st. induction ops as [|[e o] ops IH]; intros st Hf Hw Hbg.
  - cbn. rewrite app_nil_r. repeat split; assumption.
  - cbn [forallb snd] in Hbg. apply andb_true_iff in Hbg.
    destruct Hbg as [Ho Hbg]. rewrite run_cons.
    destruct o as [| | | | |warn indata|]; try discriminate.
    + rewrite (exec_audio e warn indata st).
      match goal with
      | |- context [run ops ?s] =>
          destruct (IH s Hf Hw Hbg) as (Ha & Hq & Hfed & Ht & Hl & Hwk)
      end.
      cbv zeta. rewrite Ha, Hq, Hfed, Ht, Hl, Hwk.
      cbn [captured flat_map snd app audio_q text_q fed tasks set_audio_q
           logged set_log].
      rewrite <- app_assoc. repeat split; reflexivity.
    + replace (exec (run_op e Worker) st) with st
        by (unfold exec; cbn [run_op]; now rewrite stt_worker_parked).
      exact (IH st Hf Hw Hbg).
Qed.

Lemma audio_piles_up_while_not_listening_witness :
  audio_q (run [(afternoon, Audio None [Byte.x01]); (afternoon, Worker);
                (afternoon, Audio None [Byte.x02]); (afternoon, Worker)]
               two_tasks)
  = [[Byte.x01]; [Byte.x02]]
  /\ text_q (run [(afternoon, Audio None [Byte.x01]); (afternoon, Worker);
                  (afternoon, Audio None [Byte.x02]); (afternoon, Worker)]
                 two_tasks) = [].
Proof.
  destruct (audio_piles_up_while_not_listening
              [(afternoon, Audio None [Byte.x01]); (afternoon, Worker);
               (afternoon, Audio None [Byte.x02]); (afternoon, Worker)]
              two_tasks eq_refl eq_refl eq_refl) as (Ha & Hq & _).
  split; [rewrite Ha | rewrite Hq]; reflexivity.
Defined.







(* ================================================================== *)
(** ** Further properties: patterns, names and formats *)
(* ================================================================== *)




Lemma append_inv_head (c a b : string) : c ++ a = c ++ b -> a = b.
Proof. induction c as [|x c IH]; cbn; [auto | intros [= H]; auto]. Qed.

Lemma rev_inj (a b : string) : rev a = rev b -> a = b.
Proof. intros H. now rewrite <- (rev_involutive a), H, rev_involutive. Qed.

Lemma append_inv_tail (a b c : string) : a ++ c = b ++ c -> a = b.
Proof.
  intros H. apply (f_equal rev) in H. rewrite !rev_app in H.
  now apply append_inv_head, rev_inj in H.
Qed.

Lemma str_of_int_inj (z z' : Z) : str_of_int z = str_of_int z' -> z = z'.
Proof.
  unfold str_of_int. intros H.
  assert (Hn : forall n, Z.to_int n <> Decimal.Pos Decimal.Nil
                         /\ Z.to_int n <> Decimal.Neg Decimal.Nil).
  { intros [|p|p]; cbn; split; try discriminate;
      intros [= Hp]; now apply (Unsigned.to_uint_nonnil p). }
  apply (f_equal NilZero.int_of_string) in H.
  rewrite !NilZero.isi in H by apply Hn.
  injection H as H. now apply DecimalZ.to_int_inj.
Qed.

(** X12. A screenshot is saved under the working directory as
    screenshot_<seconds>.png, the seconds being the clock reading in
    decimal; that path is shown in the transcript.  The name depends on the
    second alone: two screenshots taken within one second go to the same
    name, screenshots taken in different seconds to different names. *)
Theorem screenshot_is_named_by_the_second
    (e e' : Env) (u : string) (st : App) :
  selects_screenshot u = true -> screenshot_fault e = None ->
  let name := "screenshot_" ++ str_of_int (time_time e) ++ ".png" in
  let path := path_join e (getcwd e) name in
  handle_command e u append_transcript st
  = (Ok St_done,
     logged [echo u; ScreenshotTo path;
             Transcript ("Assistant: Screenshot saved to " ++ path ++ NL);
             Say "Screenshot taken for you."] st)
  /\ (screenshot_name e = screenshot_name e' <-> time_time e = time_time e').
Proof.
  unfold selects_screenshot. rewrite !andb_true_iff, !negb_true_iff.
  intros [[H1 H2] H3] Hs. cbv zeta. split.
  - rewrite handle_command_run. unfold reply. rewrite H1, H2, H3, Hs.
    reflexivity.
  - unfold screenshot_name. split; [|now intros ->].
    intros H. apply append_inv_head, append_inv_tail in H.
    now apply str_of_int_inj.
Qed.

Lemma screenshot_is_named_by_the_second_witness :
  handle_command afternoon "Screenshot please" append_transcript two_tasks
  = (Ok St_done,
     logged [Transcript ("You: screenshot please" ++ NL);
             ScreenshotTo "/home/user/screenshot_1700000000.png";
             Transcript ("Assistant: Screenshot saved to "
                         ++ "/home/user/screenshot_1700000000.png" ++ NL);
             Say "Screenshot taken for you."] two_tasks).
Proof.
  destruct (screenshot_is_named_by_the_second afternoon afternoon
              "Screenshot please" two_tasks eq_refl eq_refl) as (Hrun & _).
  exact Hrun.
Defined.





Lemma digit_inj (a b : nat) : a < 10 -> b < 10 -> digit a = digit b -> a = b.
Proof.
  unfold digit. intros Ha Hb H. apply (f_equal nat_of_ascii) in H.
  rewrite !nat_ascii_embedding in H by lia. lia.
Qed.

Lemma two_digits_inj (a b : nat) :
  a < 100 -> b < 100 -> two_digits a = two_digits b -> a = b.
Proof.
  unfold two_digits. intros Ha Hb.
  pose proof (Nat.mod_upper_bound (a / 10) 10 ltac:(lia)) as Ba1.
  pose proof (Nat.mod_upper_bound a 10 ltac:(lia)) as Ba0.
  pose proof (Nat.mod_upper_bound (b / 10) 10 ltac:(lia)) as Bb1.
  pose proof (Nat.mod_upper_bound b 10 ltac:(lia)) as Bb0.
  assert (Ea : a = 10 * (a / 10) + a mod 10) by apply Nat.div_mod_eq.
  assert (Eb : b = 10 * (b / 10) + b mod 10) by apply Nat.div_mod_eq.
  assert (Da : (a / 10) mod 10 = a / 10)
    by (apply Nat.mod_small, Nat.Div0.div_lt_upper_bound; lia).
  assert (Db : (b / 10) mod 10 = b / 10)
    by (apply Nat.mod_small, Nat.Div0.div_lt_upper_bound; lia).
  remember ((a / 10) mod 10) as a1. remember (a mod 10) as a0.
  remember ((b / 10) mod 10) as b1. remember (b mod 10) as b0.
  intros H. injection H as H1 H0.
  apply digit_inj in H1; [|assumption|assumption].
  apply digit_inj in H0; [|assumption|assumption].
  lia.
Qed.

(** X14. The time text identifies the minute of the day: two valid clock
    readings that are shown and said as the same text are the same
    reading. *)
Theorem time_text_identifies_the_minute (h m h' m' : nat) :
  h < 24 -> m < 60 -> h' < 24 -> m' < 60 ->
  strftime_I_M_p h m = strftime_I_M_p h' m' -> h = h' /\ m = m'.
Proof.
  intros Hh Hm Hh' Hm' H.
  pose proof (hour12_range h) as Rh. pose proof (hour12_range h') as Rh'.
  pose proof (hour12_mod h) as Ma. pose proof (hour12_mod h') as Mb.
  assert (Sa : h < 12 -> h mod 12 = h) by (intros; now apply Nat.mod_small).
  assert (Sb : h' < 12 -> h' mod 12 = h') by (intros; now apply Nat.mod_small).
  assert (La : 12 <= h -> h = 12 + h mod 12).
  { intros. rewrite (Nat.Div0.mod_eq h 12).
    replace (h / 12) with 1
      by (apply Nat.div_unique with (h - 12); lia). lia. }
  assert (Lb : 12 <= h' -> h' = 12 + h' mod 12).
  { intros. rewrite (Nat.Div0.mod_eq h' 12).
    replace (h' / 12) with 1
      by (apply Nat.div_unique with (h' - 12); lia). lia. }
  assert (Hparts : two_digits (hour12 h) = two_digits (hour12 h')
                   /\ two_digits m = two_digits m'
                   /\ am_pm h = am_pm h').
  { unfold strftime_I_M_p in H.
    remember (hour12 h) as a. remember (hour12 h') as b.
    remember (am_pm h) as p. remember (am_pm h') as q.
    unfold two_digits in *.
    remember (digit ((a / 10) mod 10)) as a1. remember (digit (a mod 10)) as a0.
    remember (digit ((b / 10) mod 10)) as b1. remember (digit (b mod 10)) as b0.
    remember (digit ((m / 10) mod 10)) as m1. remember (digit (m mod 10)) as m0.
    remember (digit ((m' / 10) mod 10)) as n1.
    remember (digit (m' mod 10)) as n0.
    cbn [append] in H. injection H as -> -> -> -> ->. auto. }
  destruct Hparts as (E12 & Em & Ep).
  apply two_digits_inj in E12; [|lia|lia].
  apply two_digits_inj in Em; [|lia|lia].
  split; [|exact Em].
  rewrite E12 in Ma. rewrite Ma in Mb.
  unfold am_pm in Ep.
  destruct (Nat.ltb_spec h 12), (Nat.ltb_spec h' 12); try discriminate; lia.
Qed.

Lemma time_text_identifies_the_minute_witness :
  strftime_I_M_p 14 5 = "02:05 PM" /\ 14 = 14 /\ 5 = 5.
Proof.
  split; [reflexivity|].
  apply (time_text_identifies_the_minute 14 5 14 5);
    try (apply Nat.ltb_lt; reflexivity).
  reflexivity.
Defined.

(* ================================================================== *)
(** ** Further properties: what the dispatcher reads, what a save keeps *)
(* ================================================================== *)

(** X15. [handle_command] reads nothing of the state but the Task Store:
    in two states that hold the same tasks it returns the same (or raises
    the same) and adds the same events to the log, whatever the dispatcher
    state, the listening flag, the queues and the file are. *)
Theorem dispatch_reads_only_the_task_store
    (e : Env) (u : string) (st st' : App) :
  tasks st = tasks st' ->
  result (handle_command e u append_transcript) st
  = result (handle_command e u append_transcript) st'
  /\ exists evs,
       exec (handle_command e u append_transcript) st = logged evs st
       /\ exec (handle_command e u append_transcript) st' = logged evs st'.
Proof.
  intros Ht. unfold result, exec. rewrite !handle_command_run. cbn [fst snd].
  assert (E : reply e u st = reply e u st')
    by (unfold reply; now rewrite Ht).
  rewrite E. split; [reflexivity|]. eexists. split; reflexivity.
Qed.

Lemma dispatch_reads_only_the_task_store_witness :
  result (handle_command afternoon "list tasks" append_transcript) two_tasks
  = result (handle_command afternoon "list tasks" append_transcript)
           (set_awaiting_task true (set_listening_flag true two_tasks)).
Proof.
  destruct (dispatch_reads_only_the_task_store afternoon "list tasks"
              two_tasks
              (set_awaiting_task true (set_listening_flag true two_tasks))
              eq_refl) as (Hsame & _).
  exact Hsame.
Defined.

Lemma serialize_app (ts more : list string) :
  SpecTable.serialize (ts ++ more)
  = SpecTable.serialize ts ++ SpecTable.serialize more.
Proof.
  unfold SpecTable.serialize.
  induction ts as [|t ts IH]; cbn [app fold_right append]; [reflexivity|].
  now rewrite IH, !append_assoc.
Qed.

Lemma save_gets_through (e : Env) (st : App) :
  io_fault e = None ->
  tasks_txt (exec (save_tasks e) st) = Some (SpecTable.serialize (tasks st))
  /\ tasks (exec (save_tasks e) st) = tasks st.
Proof.
  intros H. unfold exec. rewrite save_tasks_run. cbn [snd]. unfold saved.
  rewrite H. split; reflexivity.
Qed.

(** X16. A later save never loses what an earlier save wrote: whatever
    happens between two saves that get through, the text of the second file
    begins with the text of the first, and what follows are the lines of
    the tasks added in between. *)
Theorem later_save_extends_earlier_save
    (e1 e2 : Env) (ops : list (Env * op)) (st : App) :
  io_fault e1 = None -> io_fault e2 = None ->
  let first := exec (save_tasks e1) st in
  let second := exec (save_tasks e2) (run ops first) in
  exists added,
    tasks (run ops first) = (tasks st ++ added)%list
    /\ tasks_txt first = Some (SpecTable.serialize (tasks st))
    /\ tasks_txt second
       = Some (SpecTable.serialize (tasks st) ++ SpecTable.serialize added).
Proof.
  intros H1 H2. cbv zeta.
  destruct (save_gets_through e1 st H1) as [Hfile1 Htasks1].
  destruct (save_gets_through e2 (run ops (exec (save_tasks e1) st)) H2)
    as [Hfile2 _].
  destruct (run_preserves evolves evolves_run_op ops
              (exec (save_tasks e1) st)) as (_ & (added & Hadd) & _).
  rewrite Htasks1 in Hadd.
  exists added. split; [exact Hadd|]. split; [exact Hfile1|].
  now rewrite Hfile2, Hadd, serialize_app.
Qed.

Lemma later_save_extends_earlier_save_witness :
  tasks_txt (exec (save_tasks afternoon) two_tasks)
  = Some ("buy milk" ++ NL ++ "call mom" ++ NL)
  /\ exists added,
       tasks_txt
         (exec (save_tasks afternoon)
               (run [(afternoon, Poll)]
                    (exec (save_tasks afternoon)
                          (set_text_q ["add task"; "feed cat"] two_tasks))))
       = Some (SpecTable.serialize ["buy milk"; "call mom"]
               ++ SpecTable.serialize added).
Proof.
  split; [reflexivity|].
  destruct (later_save_extends_earlier_save afternoon afternoon
              [(afternoon, Poll)]
              (set_text_q ["add task"; "feed cat"] two_tasks)
              eq_refl eq_refl) as (added & _ & _ & Hfile).
  exists added. exact Hfile.
Defined.
